(** * Inspectra: the query pipeline of the vehicle-inspection chatbot

    A shallow embedding of [app/chatbot.py], [app/llm_interface.py],
    [app/memory.py] and [app/database.py].

    Conventions of the embedding.
    - A Python [str] is a [string] of ASCII text: letter case, digits and
      white space are those of the ASCII range, and a character above 127
      stands for itself.
    - The three external oracles (language model, database driver, vector
      index) are not executed: every call of [process_query] receives the
      answers the oracles give during that call in an [Env] record, and
      the model logs which oracle was asked.
    - A raised exception is represented by its text, the only part of it
      the program reads. *)

From stdpp Require Import gmap strings list fin_maps sorting.
From Stdlib Require Import ZArith Ascii String Bool Lia.

Local Open Scope string_scope.
Local Open Scope Z_scope.

(** ** Python string primitives *)

Module PyStr.

Definition code (c : ascii) : nat := nat_of_ascii c.

(** [str.isspace] on one ASCII character: TAB, LF, VT, FF, CR, the four
    separators FS, GS, RS, US and the blank. *)
Definition is_space (c : ascii) : bool :=
  let n := code c in
  ((9 <=? n) && (n <=? 13) || (28 <=? n) && (n <=? 32))%nat.

Definition is_upper (c : ascii) : bool :=
  let n := code c in ((65 <=? n) && (n <=? 90))%nat.

Definition is_lower (c : ascii) : bool :=
  let n := code c in ((97 <=? n) && (n <=? 122))%nat.

Definition is_digit (c : ascii) : bool :=
  let n := code c in ((48 <=? n) && (n <=? 57))%nat.

Definition lower_char (c : ascii) : ascii :=
  if is_upper c then ascii_of_nat (code c + 32) else c.

Definition upper_char (c : ascii) : ascii :=
  if is_lower c then ascii_of_nat (code c - 32) else c.

Fixpoint map_chars (f : ascii -> ascii) (s : string) : string :=
  match s with
  | EmptyString => EmptyString
  | String c t => String (f c) (map_chars f t)
  end.

(** [s.lower()] and [s.upper()] *)
Definition lower (s : string) : string := map_chars lower_char s.
Definition upper (s : string) : string := map_chars upper_char s.

(** [s.lstrip()], [s.rstrip()] and [s.strip()] *)
Fixpoint lstrip (s : string) : string :=
  match s with
  | EmptyString => EmptyString
  | String c t => if is_space c then lstrip t else s
  end.

Fixpoint rstrip (s : string) : string :=
  match s with
  | EmptyString => EmptyString
  | String c t =>
      match rstrip t with
      | EmptyString => if is_space c then EmptyString else String c EmptyString
      | t' => String c t'
      end
  end.

Definition strip (s : string) : string := rstrip (lstrip s).

(** [s.startswith(p)] *)
Fixpoint startswith (p s : string) : bool :=
  match p, s with
  | EmptyString, _ => true
  | String a p', String b s' => if Ascii.eqb a b then startswith p' s' else false
  | String _ _, EmptyString => false
  end.

(** [sub in s] *)
Fixpoint contains (sub s : string) : bool :=
  startswith sub s ||
  match s with
  | EmptyString => false
  | String _ t => contains sub t
  end.

(** [any(w in s for w in words)] *)
Definition contains_any (words : list string) (s : string) : bool :=
  existsb (fun w => contains w s) words.

(** [s.split(c)[0]]: the text before the first occurrence of [c] *)
Fixpoint before_char (c : ascii) (s : string) : string :=
  match s with
  | EmptyString => EmptyString
  | String a t => if Ascii.eqb a c then EmptyString else String a (before_char c t)
  end.

(** [s[:n]] for a non-negative [n] *)
Fixpoint take (n : nat) (s : string) : string :=
  match n, s with
  | O, _ => EmptyString
  | S _, EmptyString => EmptyString
  | S n', String c t => String c (take n' t)
  end.

Fixpoint drop (n : nat) (s : string) : string :=
  match n, s with
  | O, _ => s
  | S _, EmptyString => EmptyString
  | S n', String _ t => drop n' t
  end.

(** truth value of a string: [bool(s)] *)
Definition truthy (s : string) : bool :=
  match s with EmptyString => false | _ => true end.

(** [s.replace(old, new)] for a non-empty [old]: the occurrences are
    found from the left and do not overlap.  [skip] counts the
    characters of the current occurrence still to be passed over. *)
Fixpoint replace_from (old new : string) (skip : nat) (s : string) : string :=
  match s with
  | EmptyString => EmptyString
  | String c t =>
      match skip with
      | S k => replace_from old new k t
      | O =>
          if startswith old s
          then new ++ replace_from old new (String.length old - 1) t
          else String c (replace_from old new O t)
      end
  end.

Definition replace (old new s : string) : string := replace_from old new O s.

(** a text without white space *)
Fixpoint solid (k : string) : bool :=
  match k with
  | EmptyString => true
  | String c k' => negb (is_space c) && solid k'
  end.

End PyStr.

(** ** Exceptions and JSON values *)

(** The result of a call that may raise: the value, or the text
    [str(e)] of the exception. *)
Inductive result (A : Type) : Type :=
| Ok (a : A)
| Raise (text : string).
Arguments Ok {A} a.
Arguments Raise {A} text.

(** What [json.loads] builds.  An object keeps its members in source
    order in an association list whose first binding of a key is the one
    the dict holds. *)
#[warnings="-register-all"]
Inductive json : Type :=
| JNull
| JBool (b : bool)
| JNum (n : Z)
| JStr (s : string)
| JArr (items : list json)
| JObj (members : list (string * json)).

Fixpoint assoc {A : Type} (k : string) (l : list (string * A)) : option A :=
  match l with
  | [] => None
  | (k', v) :: l' => if String.eqb k k' then Some v else assoc k l'
  end.

(** truth value of a decoded JSON value *)
Definition json_truthy (j : json) : bool :=
  match j with
  | JNull => false
  | JBool b => b
  | JNum n => negb (n =? 0)
  | JStr s => PyStr.truthy s
  | JArr l => match l with [] => false | _ => true end
  | JObj l => match l with [] => false | _ => true end
  end.

(** [j[key]] with a string key: only a dict holding the key answers. *)
Definition json_getitem (j : json) (key : string) : result json :=
  match j with
  | JObj l =>
      match assoc key l with
      | Some v => Ok v
      | None => Raise ("'" ++ key ++ "'")
      end
  | JArr _ => Raise "list indices must be integers or slices, not str"
  | JStr _ => Raise "string indices must be integers, not 'str'"
  | JNull => Raise "'NoneType' object is not subscriptable"
  | JBool _ => Raise "'bool' object is not subscriptable"
  | JNum _ => Raise "'int' object is not subscriptable"
  end.

(** [j.get(key, False)] on a dict *)
Definition json_get (j : json) (key : string) (default : json) : json :=
  match j with
  | JObj l => match assoc key l with Some v => v | None => default end
  | _ => default
  end.

(** What [json.loads] does with a text: it returns the decoded value, or
    raises [json.JSONDecodeError], or raises another exception, whose text
    is kept (a [RecursionError] on text nested deeper than the interpreter
    allows, a [ValueError] on an integer of more digits than it
    converts). *)
Inductive decoded : Type :=
| Decoded (j : json)
| JSONDecodeError
| OtherError (text : string).

(** ** [app/llm_interface.py] *)

Module LLMInterface.
Import PyStr.

Definition TEXT_COLUMNS : list string :=
  [ "inspector_name"; "ramp"; "mfg_model"; "damage_comments";
    "vehicle_comments"; "damage_descriptions" ].

(** number of leading characters that satisfy [p] *)
Fixpoint span_len (p : ascii -> bool) (s : string) : nat :=
  match s with
  | EmptyString => O
  | String c t => if p c then S (span_len p t) else O
  end.

(** case-insensitive [startswith], as [re.IGNORECASE] compares *)
Fixpoint startswith_ci (p s : string) : bool :=
  match p, s with
  | EmptyString, _ => true
  | String a p', String b s' =>
      if Ascii.eqb (lower_char a) (lower_char b) then startswith_ci p' s' else false
  | String _ _, EmptyString => false
  end.

(** [re.sub(r"```(sql)?|```", "", s)] *)
Fixpoint strip_fences_from (skip : nat) (s : string) : string :=
  match s with
  | EmptyString => EmptyString
  | String c t =>
      match skip with
      | S k => strip_fences_from k t
      | O =>
          if startswith "```sql" s then strip_fences_from 5 t
          else if startswith "```" s then strip_fences_from 2 t
          else String c (strip_fences_from O t)
      end
  end.

Definition strip_fences (s : string) : string := strip_fences_from O s.

(** One match of [col\s*=\s*'([^']+)'] at the head of [s]: the captured
    group and the number of characters matched.  Every repetition is
    followed by a character it cannot contain, so the greedy match is the
    only one. *)
Definition match_eq_literal (col s : string) : option (string * nat) :=
  if startswith_ci col s then
    match lstrip (drop (String.length col) s) with
    | String "="%char r1 =>
        match lstrip r1 with
        | String "'"%char r2 =>
            let v := before_char "'"%char r2 in
            if truthy v && (String.length v <? String.length r2)%nat
            then Some (v, (String.length s - (String.length r2 - String.length v - 1))%nat)
            else None
        | _ => None
        end
    | _ => None
    end
  else None.

(** [re.sub(rf"{col}\s*=\s*'([^']+)'", f"{col} ILIKE '%\\1%'", s,
    flags=re.IGNORECASE)] *)
Fixpoint force_ilike_from (col : string) (skip : nat) (s : string) : string :=
  match s with
  | EmptyString => EmptyString
  | String c t =>
      match skip with
      | S k => force_ilike_from col k t
      | O =>
          match match_eq_literal col s with
          | Some (v, n) =>
              (col ++ " ILIKE '%" ++ v ++ "%'") ++ force_ilike_from col (n - 1) t
          | None => String c (force_ilike_from col O t)
          end
      end
  end.

Definition force_ilike (sql col : string) : string := force_ilike_from col O sql.

Definition _clean_sql (raw_sql : string) : string :=
  let sql := strip (strip_fences raw_sql) in
  let sql := fold_left force_ilike TEXT_COLUMNS sql in
  let sql := if contains "SELECT" (upper sql) then sql else "SELECT * " ++ sql in
  let sql := if contains "LIMIT" (upper sql) then sql else sql ++ " LIMIT 1000" in
  before_char ";"%char sql ++ ";".

(** the text [_clean_sql] has built when it tests for [LIMIT] *)
Definition before_limit (raw_sql : string) : string :=
  let sql := strip (strip_fences raw_sql) in
  let sql := fold_left force_ilike TEXT_COLUMNS sql in
  if contains "SELECT" (upper sql) then sql else "SELECT * " ++ sql.

(** [generate_sql]: [raw_sql] is what the oracle answered to the prompt *)
Definition generate_sql (raw_sql : option string) : option string :=
  match raw_sql with
  | Some s => if truthy s then Some (_clean_sql s) else None
  | None => None
  end.

(** One match of [\[\d+\srecords?\]] at the head of [s]: its length *)
Definition match_records_tag (s : string) : option nat :=
  match s with
  | String "["%char r =>
      let n := span_len is_digit r in
      match n, drop n r with
      | S _, String c r2 =>
          if is_space c && startswith "record" r2 then
            let r3 := drop 6 r2 in
            if startswith "s]" r3 then Some (n + 10)%nat
            else if startswith "]" r3 then Some (n + 9)%nat
            else None
          else None
      | _, _ => None
      end
  | _ => None
  end.

(** [re.sub(r"\[\d+\srecords?\]|\[\]|```", "", s)] *)
Fixpoint strip_tags_from (skip : nat) (s : string) : string :=
  match s with
  | EmptyString => EmptyString
  | String c t =>
      match skip with
      | S k => strip_tags_from k t
      | O =>
          match match_records_tag s with
          | Some n => strip_tags_from (n - 1) t
          | None =>
              if startswith "[]" s then strip_tags_from 1 t
              else if startswith "```" s then strip_tags_from 2 t
              else String c (strip_tags_from O t)
          end
      end
  end.

Definition _polish_response (response : string) : string :=
  let response := strip_tags_from O response in
  let response :=
    replace "Found 1 record" "Found 1 inspection record"
      (replace "From []" "" response) in
  match response with
  | String c t => String (upper_char c) t
  | EmptyString => "No results found"
  end.

(** [format_response]: [answer] is what the oracle answered *)
Definition format_response (answer : option string) : string :=
  _polish_response
    (match answer with
     | Some s =>
         if truthy s then s
         else "I couldn't find that information. Please try rephrasing."
     | None => "I couldn't find that information. Please try rephrasing."
     end).

(** the predicate [written ws1 = ws2 'v'] *)
Definition exact_match (written ws1 ws2 v : string) : string :=
  written ++ ws1 ++ "=" ++ ws2 ++ "'" ++ v ++ "'".

(** a text of white space only *)
Fixpoint blank (s : string) : bool :=
  match s with
  | EmptyString => true
  | String c t => is_space c && blank t
  end.

(** every character of the text satisfies [p] *)
Fixpoint all_chars (p : ascii -> bool) (s : string) : bool :=
  match s with
  | EmptyString => true
  | String c t => p c && all_chars p t
  end.

(** the characters [_preprocess_query] keeps: [[a-z0-9\s\-_']] *)
Definition kept_char (c : ascii) : bool :=
  is_lower c || is_digit c || is_space c
  || Ascii.eqb c "-" || Ascii.eqb c "_" || Ascii.eqb c "'".

Fixpoint keep_chars (p : ascii -> bool) (s : string) : string :=
  match s with
  | EmptyString => EmptyString
  | String c t => if p c then String c (keep_chars p t) else keep_chars p t
  end.

(** [_preprocess_query]: [re.sub(r"[^a-z0-9\s\-_']", "", query.lower().strip())] *)
Definition _preprocess_query (query : string) : string :=
  keep_chars kept_char (strip (lower query)).

Section Routing.

(** [json.loads] on text *)
Variable json_loads : string -> decoded.

Definition fallback_decision (reason : string) : json :=
  JObj [("use_semantic", JBool false); ("reason", JStr reason)].

(** [route_query]: [response] is what the oracle answered.  The handler
    is for [json.JSONDecodeError] alone: any other exception of
    [json.loads] leaves the method. *)
Definition route_query (response : option string) : result json :=
  match response with
  | Some s =>
      if truthy s then
        match json_loads s with
        | Decoded j => Ok j
        | JSONDecodeError => Ok (fallback_decision "Invalid response")
        | OtherError text => Raise text
        end
      else Ok (fallback_decision "Fallback")
  | None => Ok (fallback_decision "Fallback")
  end.


End Routing.

End LLMInterface.

(** ** [app/database.py] *)

Module DatabaseManager.

(** A value as the driver hands it over: NULL, text, or a date or time,
    which carries the text its [isoformat()] gives.  The model follows
    columns of these types; a value of another type (a number, an array)
    would be stored as it is, as text is. *)
Inductive dbval : Type :=
| DNull
| DText (s : string)
| DDate (iso : string).

(** A value of a returned record: [None] or a [str]. *)
Inductive scalar : Type :=
| SNull
| SStr (s : string).

(** A record: a dict from column name to value, in insertion order. *)
Definition row : Type := list (string * scalar).

(** [d[k] = v] on a dict kept in insertion order *)
Fixpoint dict_set {A : Type} (k : string) (v : A) (d : list (string * A))
  : list (string * A) :=
  match d with
  | [] => [(k, v)]
  | (k', v') :: d' =>
      if String.eqb k k' then (k', v) :: d' else (k', v') :: dict_set k v d'
  end.

(** What the cursor does with one statement. *)
Inductive cursor_run : Type :=
| CursorFails (text : string)      (* [self.conn.cursor()] raises *)
| ExecuteFails (text : string)     (* [execute] or [fetchall] raises *)
| RecoveryFails (text : string)    (* the [rollback] of the handler raises *)
| NoResultSet                      (* [cur.description] is [None] *)
| ResultSet (columns : list string) (rows : list (list dbval)).

Definition convert (v : dbval) : scalar :=
  match v with
  | DNull => SNull
  | DText s => SStr s
  | DDate iso => SStr iso
  end.

(** The inner loop over [enumerate(columns)]; [row[i]] past the end of
    the tuple raises [IndexError], here [None]. *)
Fixpoint row_dict (columns : list string) (values : list dbval) (acc : row)
  : option row :=
  match columns, values with
  | [], _ => Some acc
  | col :: columns', v :: values' =>
      row_dict columns' values' (dict_set col (convert v) acc)
  | _ :: _, [] => None
  end.

Fixpoint fetch_rows (columns : list string) (rows : list (list dbval))
  : option (list row) :=
  match rows with
  | [] => Some []
  | r :: rows' =>
      match row_dict columns r [], fetch_rows columns rows' with
      | Some d, Some ds => Some (d :: ds)
      | _, _ => None
      end
  end.

(** [execute_query]: a list of records, [None] for a statement that
    failed, or an exception that leaves the method.  A description
    without columns is a false value, as [None] is. *)
Definition execute_query (run : cursor_run) : result (option (list row)) :=
  match run with
  | CursorFails text => Raise text
  | ExecuteFails _ => Ok None
  | RecoveryFails text => Raise text
  | NoResultSet => Ok (Some [])
  | ResultSet [] _ => Ok (Some [])
  | ResultSet columns rows => Ok (fetch_rows columns rows)
  end.

End DatabaseManager.

(** ** [app/memory.py] *)

Module ConversationMemory.

(** Instants and durations are counted in microseconds. *)
Record Message : Type := mkMessage
  { role : string; content : string; timestamp : Z }.

Record Session : Type := mkSession
  { history : list Message; created : Z; last_accessed : Z }.

Record t : Type := mkMemory
  { sessions : gmap string Session; ttl : Z }.

Definition minutes (n : Z) : Z := n * 60000000.

(** [ConversationMemory(ttl_minutes=60)] *)
Definition new (ttl_minutes : Z) : t :=
  {| sessions := ∅; ttl := minutes ttl_minutes |}.

(** [now - data['last_accessed'] > self.ttl] *)
Definition expired (now idle : Z) (data : Session) : bool :=
  idle <? now - last_accessed data.

Definition _clean_expired (now : Z) (m : t) : t :=
  {| sessions :=
       filter (fun kv : string * Session => expired now (ttl m) kv.2 = false)
              (sessions m);
     ttl := ttl m |}.

(** [add_message]; the four readings of the clock are, in order, the
    one of the sweep, of ['created'], of ['timestamp'] and of
    ['last_accessed']. *)
Definition add_message (session_id role content : string)
    (now_sweep now_created now_message now_accessed : Z) (m : t) : t :=
  let m := _clean_expired now_sweep m in
  let old :=
    match sessions m !! session_id with
    | Some data => data
    | None => {| history := []; created := now_created; last_accessed := 0 |}
    end in
  let data :=
    {| history := (history old ++ [mkMessage role content now_message])%list;
       created := created old;
       last_accessed := now_accessed |} in
  {| sessions := <[session_id := data]> (sessions m); ttl := ttl m |}.

(** [l[-n:]] *)
Definition last_n {A : Type} (n : nat) (l : list A) : list A :=
  match n with
  | O => l
  | _ => drop (List.length l - n)%nat l
  end.

(** [get_history], with the reading of the clock its sweep takes *)
Definition get_history (session_id : string) (max_messages : nat) (now : Z)
    (m : t) : list Message * t :=
  let m := _clean_expired now m in
  match sessions m !! session_id with
  | None => ([], m)
  | Some data => (last_n max_messages (history data), m)
  end.

Definition clear_session (session_id : string) (m : t) : t :=
  {| sessions := delete session_id (sessions m); ttl := ttl m |}.

(** One use of the memory by a caller. *)
Inductive Access : Type :=
| Lookup (session_id : string) (max_messages : nat) (now : Z)
| Append (session_id role content : string)
         (now_sweep now_created now_message now_accessed : Z)
| Clear (session_id : string).

Definition access (m : t) (a : Access) : t :=
  match a with
  | Lookup sid n now => (get_history sid n now m).2
  | Append sid role content t0 t1 t2 t3 => add_message sid role content t0 t1 t2 t3 m
  | Clear sid => clear_session sid m
  end.

(** [a] adds a message to the session [sid] *)
Definition appends_to (sid : string) (a : Access) : Prop :=
  match a with
  | Append sid' _ _ _ _ _ _ => sid' = sid
  | _ => False
  end.

End ConversationMemory.

(** ** [app/chatbot.py] *)

Module VehicleChatbot.
Import PyStr DatabaseManager.

(** *** Enrichment *)

Record Enrichment : Type := mkEnrichment
  { source_files : list string;
    top_damage : string * nat;
    top_inspector : string * nat;
    record_count : nat }.

(** The three accumulators of the loop of [_enrich_results]. *)
Record Tally : Type := mkTally
  { files : gset string;
    damage_types : list (string * nat);
    inspectors : list (string * nat) }.

(** [rec.get(key)] when it is a non-empty string (a true value) *)
Definition get_text (rec : row) (key : string) : option string :=
  match assoc key rec with
  | Some (SStr s) => if truthy s then Some s else None
  | _ => None
  end.

(** [d[k] = d.get(k, 0) + 1] *)
Definition bump (k : string) (d : list (string * nat)) : list (string * nat) :=
  dict_set k (S (default O (assoc k d))) d.

(** [damage.split('-')[0].strip().lower()] *)
Definition damage_type (damage : string) : string :=
  lower (strip (before_char "-"%char damage)).

Definition tally_row (acc : Tally) (rec : row) : Tally :=
  {| files :=
       match get_text rec "source_file" with
       | Some src => {[ src ]} ∪ files acc
       | None => files acc
       end;
     damage_types :=
       match get_text rec "damage_descriptions" with
       | Some damage => bump (damage_type damage) (damage_types acc)
       | None => damage_types acc
       end;
     inspectors :=
       match get_text rec "inspector_name" with
       | Some inspector => bump (lower inspector) (inspectors acc)
       | None => inspectors acc
       end |}.

(** [sorted(xs)] on strings: ascending by code points *)
Definition str_le (a b : string) : Prop := String.leb a b = true.

#[global] Instance str_le_dec : RelDecision str_le :=
  fun a b => decide (String.leb a b = true).

Definition sorted (l : list string) : list string := merge_sort str_le l.

(** [max(items, key=lambda x: x[1], default=d)]: the first item whose
    count is the largest *)
Fixpoint max_from (best : string * nat) (l : list (string * nat)) : string * nat :=
  match l with
  | [] => best
  | x :: l' => max_from (if (best.2 <? x.2)%nat then x else best) l'
  end.

Definition max_item (d : string * nat) (l : list (string * nat)) : string * nat :=
  match l with
  | [] => d
  | x :: l' => max_from x l'
  end.

Definition tally (results : list row) : Tally :=
  fold_left tally_row results {| files := ∅; damage_types := []; inspectors := [] |}.

(** [_enrich_results]; [None] is the empty dict *)
Definition _enrich_results (results : list row)
    (semantic_matches : option (list row)) : option Enrichment :=
  match results with
  | [] => None
  | _ =>
      let acc := tally results in
      Some {| source_files := firstn 3 (sorted (elements (files acc)));
              top_damage := max_item ("none", O) (damage_types acc);
              top_inspector := max_item ("unknown", O) (inspectors acc);
              record_count := List.length results |}
  end.

(** What the summary is about: the true values of the three columns,
    record by record. *)
Definition source_names (results : list row) : list string :=
  omap (fun rec => get_text rec "source_file") results.

Definition damage_categories (results : list row) : list string :=
  omap (fun rec => damage_type <$> get_text rec "damage_descriptions") results.

Definition inspector_names (results : list row) : list string :=
  omap (fun rec => lower <$> get_text rec "inspector_name") results.

(** [top] names a most frequent member of [xs] with its number of
    occurrences, or is the placeholder with 0 when [xs] is empty *)
Definition most_frequent (placeholder : string) (xs : list string)
    (top : string * nat) : Prop :=
  (xs = [] /\ top = (placeholder, O)) \/
  (In top.1 xs /\
   top.2 = count_occ string_dec xs top.1 /\
   forall x, (count_occ string_dec xs x <= top.2)%nat).

(** a dict holds each key once *)
Definition keys_unique {A : Type} (d : list (string * A)) : Prop := NoDup (map fst d).

(** [d.get(c, 0)] *)
Definition count_of (d : list (string * nat)) (c : string) : nat :=
  default O (assoc c d).

(** the counting dict after the members of [xs] were counted into [d] *)
Definition counted (xs : list string) (d : list (string * nat)) : list (string * nat) :=
  fold_left (fun d x => bump x d) xs d.

(** The damage category in the words of the specification: the segment
    of [damage_descriptions] before the first ['-'], lower-cased. *)
Definition spec_damage_category (damage : string) : string :=
  lower (before_char "-"%char damage).

(** *** State, oracles and the monad of the pipeline *)

Record State : Type := mkState
  { memory : ConversationMemory.t;
    query_cache : list (string * string);
    error_count : Z }.

(** [VehicleChatbot.__init__] *)
Definition init : State :=
  {| memory := ConversationMemory.new 60; query_cache := []; error_count := 0 |}.

(** The oracle calls the pipeline makes. *)
Inductive Event : Type :=
| AskRouting                  (* [llm.generate] from [route_query] *)
| AskSemantic                 (* [semantic.search]: the embedding model and the index *)
| FetchMatches                (* [db.execute_query] from [semantic.search] *)
| AskSql                      (* [llm.generate] from [generate_sql] *)
| RunSql (sql : string)       (* [db.execute_query] *)
| AskFormat.                  (* [llm.generate] from [format_response] *)

(** What the oracles and the clock answer during one [process_query].
    [semantic_answer] is what the semantic search comes to: the text of
    what the embedding model, the index or the mapping raises, or what the
    cursor does with the statement that fetches the records found. *)
Record Env : Type := mkEnv
  { route_answer : option string;
    semantic_answer : result cursor_run;
    sql_answer : option string;
    db_answer : cursor_run;
    format_answer : option string;
    now_history : Z;
    now_sweep : Z;
    now_created : Z;
    now_message : Z;
    now_accessed : Z }.

(** A computation reads and writes the chatbot and the log of oracle
    calls, and returns or raises; what it wrote before raising stays. *)
Definition World : Type := State * list Event.

Definition M (A : Type) : Type := World -> result A * World.

#[global] Instance M_ret : MRet M := fun A a w => (Ok a, w).

#[global] Instance M_bind : MBind M := fun A B f m w =>
  match m w with
  | (Ok a, w') => f a w'
  | (Raise e, w') => (Raise e, w')
  end.

Definition raise {A : Type} (text : string) : M A := fun w => (Raise text, w).

Definition lift {A : Type} (r : result A) : M A := fun w => (r, w).

Definition get : M State := fun w => (Ok w.1, w).

Definition modify (f : State -> State) : M unit := fun w => (Ok tt, (f w.1, w.2)).

Definition ask (e : Event) : M unit := fun w => (Ok tt, (w.1, (w.2 ++ [e])%list)).

(** [try: body  except Exception as e: handler(e)] *)
Definition try_except {A : Type} (body : M A) (handler : string -> M A) : M A :=
  fun w =>
    match body w with
    | (Ok a, w') => (Ok a, w')
    | (Raise e, w') => handler e w'
    end.

Definition set_memory (m : ConversationMemory.t) (st : State) : State :=
  {| memory := m; query_cache := query_cache st; error_count := error_count st |}.

Definition set_cache (c : list (string * string)) (st : State) : State :=
  {| memory := memory st; query_cache := c; error_count := error_count st |}.

Definition set_error_count (n : Z) (st : State) : State :=
  {| memory := memory st; query_cache := query_cache st; error_count := n |}.

(** [if session_id:] *)
Definition session_given (session_id : option string) : option string :=
  match session_id with
  | Some sid => if truthy sid then Some sid else None
  | None => None
  end.

(** [if cached:] on an optional string *)
Definition if_true (o : option string) : option string :=
  match o with
  | Some s => if truthy s then Some s else None
  | None => None
  end.

(** *** The methods *)

Definition destructive_keywords : list string :=
  [ "delete"; "drop"; "truncate"; "alter"; "update"; "insert" ].

Definition _is_destructive_query (query : string) : bool :=
  contains_any destructive_keywords (lower query).

Definition normalize (query : string) : string := strip (lower query).

(** the loop of [_get_cached_response] over [self.query_cache.items()] *)
Fixpoint cache_lookup (normalized : string) (cache : list (string * string))
  : option string :=
  match cache with
  | [] => None
  | (cached_query, response) :: cache' =>
      if String.eqb (normalize cached_query) normalized then Some response
      else cache_lookup normalized cache'
  end.

Definition _get_cached_response (query : string) : M (option string) :=
  st ← get; mret (cache_lookup (normalize query) (query_cache st)).

Section Pipeline.

Variable json_loads : string -> decoded.

(** [_route_query]; the two subscripts are those of its log line *)
Definition _route_query (query : string) (env : Env) : M json :=
  ask AskRouting;;
  routing ← lift (LLMInterface.route_query json_loads (route_answer env));
  lift (json_getitem routing "use_semantic");;
  lift (json_getitem routing "reason");;
  mret routing.

(** [SemanticSearch.search]: the query is embedded and looked up in the
    index, then the records found are fetched from the database *)
Definition search (query : string) (env : Env) : M (option (list row)) :=
  ask AskSemantic;;
  run ← lift (semantic_answer env);
  ask FetchMatches;;
  lift (execute_query run).

(** [_get_semantic_matches]; [len(matches)] raises on [None] *)
Definition _get_semantic_matches (query : string) (routing : json) (env : Env)
  : M (option (list row)) :=
  if json_truthy (json_get routing "use_semantic" (JBool false)) then
    matches ← search query env;
    match matches with
    | Some rows => mret (Some rows)
    | None => raise "object of type 'NoneType' has no len()"
    end
  else mret None.

Definition _generate_suggestion (query : string)
    (history : list ConversationMemory.Message) : string :=
  let query_lower := lower query in
  if contains "vin" query_lower then "Please verify the VIN number."
  else if contains_any ["date"; "month"; "year"] query_lower
  then "Try adjusting the date range."
  else
    match last history with
    | Some msg =>
        if contains "model" (lower (ConversationMemory.content msg))
        then "Try specifying the manufacturer (e.g., 'Ford F150')."
        else "Try being more specific with your criteria."
    | None => "Try being more specific with your criteria."
    end.

(** [self.memory.get_history(session_id)] *)
Definition read_history (sid : string) (env : Env)
  : M (list ConversationMemory.Message) :=
  st ← get;
  let '(h, m) := ConversationMemory.get_history sid 10 (now_history env) (memory st) in
  modify (set_memory m);;
  mret h.

(** [self.memory.add_message(session_id, role, content)] *)
Definition write_message (sid role content : string) (env : Env) : M unit :=
  modify (fun st =>
    set_memory
      (ConversationMemory.add_message sid role content
         (now_sweep env) (now_created env) (now_message env) (now_accessed env)
         (memory st)) st).

Definition _handle_empty_results (query : string) (session_id : option string)
    (env : Env) : M string :=
  st ← get;
  if 2 <? error_count st then
    mret "I'm having trouble finding that information. Please try different criteria."
  else
    history ← match session_given session_id with
              | Some sid => read_history sid env
              | None => mret []
              end;
    mret ("No matching records found. " ++ _generate_suggestion query history).

Definition _update_state (query response : string) (session_id : option string)
    (env : Env) : M unit :=
  modify (fun st => set_cache (dict_set query response (query_cache st)) st);;
  match session_given session_id with
  | Some sid => write_message sid "assistant" response env
  | None => mret tt
  end.

(** [_execute_query_flow].  The calls of [clean_datetime] prepare the
    records, the history and the summary for the prompt of the formatter;
    records of text are left as they are by it. *)
Definition _execute_query_flow (query : string) (routing : json)
    (semantic_matches : option (list row))
    (session_id : option string) (env : Env) : M string :=
  ask AskSql;;
  match LLMInterface.generate_sql (sql_answer env) with
  | None => mret "I need more details to answer that."
  | Some sql =>
      ask (RunSql sql);;
      results ← lift (execute_query (db_answer env));
      match results with
      | None | Some [] => _handle_empty_results query session_id env
      | Some rows =>
          match session_given session_id with
          | Some sid => read_history sid env;; mret tt
          | None => mret tt
          end;;
          let enrichment := _enrich_results rows semantic_matches in
          ask AskFormat;;
          let response := LLMInterface.format_response (format_answer env) in
          _update_state query response session_id env;;
          mret response
      end
  end.

Definition error_message (error_msg : string) : string :=
  if contains "connection" error_msg then
    "Our systems are temporarily unavailable. Please try again later."
  else if contains_any ["syntax"; "sql"] error_msg then
    "I didn't understand that request. Please try rephrasing."
  else "An unexpected error occurred. Please try again.".

Definition _handle_error (error : string) (session_id : option string)
    (env : Env) : M string :=
  let error_msg := lower error in
  let msg := error_message error_msg in
  match session_given session_id with
  | Some sid => write_message sid "system" ("Error: " ++ take 100 error_msg) env
  | None => mret tt
  end;;
  mret msg.

(** the body of the [try] of [process_query] *)
Definition pipeline (query : string) (session_id : option string) (env : Env)
  : M string :=
  cached ← _get_cached_response query;
  match if_true cached with
  | Some response => mret response
  | None =>
      if _is_destructive_query query
      then mret "I can only provide read-only inspection data."
      else
        routing ← _route_query query env;
        semantic_matches ← _get_semantic_matches query routing env;
        response ← _execute_query_flow query routing semantic_matches session_id env;
        modify (set_error_count 0);;
        mret response
  end.

Definition process_query (query : string) (session_id : option string) (env : Env)
  : M string :=
  try_except (pipeline query session_id env)
    (fun e =>
       modify (fun st => set_error_count (error_count st + 1) st);;
       _handle_error e session_id env).

(** *** Sequences of calls *)

Record Call : Type := mkCall
  { call_query : string; call_session : option string; call_env : Env }.

(** the chatbot after one more call *)
Definition state_after (st : State) (c : Call) : State :=
  (process_query (call_query c) (call_session c) (call_env c) (st, [])).2.1.

Definition run_all (st : State) (calls : list Call) : State :=
  fold_left state_after calls st.

(** *** The paths of one call, in direct style

    What one call of [process_query] answers, writes and asks on each
    of its paths; [process_query_outcome] below proves that the monadic
    program above takes exactly these paths. *)

Definition refusal : string := "I can only provide read-only inspection data.".

Definition trouble : string :=
  "I'm having trouble finding that information. Please try different criteria.".

(** the oracle calls made before SQL synthesis *)
Definition prelude (pre : list Event) : Prop :=
  pre = [AskRouting] \/ pre = [AskRouting; AskSemantic; FetchMatches].

(** the history the empty-result path reads *)
Definition history_read (session_id : option string) (env : Env) (st : State)
  : list ConversationMemory.Message :=
  match session_given session_id with
  | Some sid => (ConversationMemory.get_history sid 10 (now_history env) (memory st)).1
  | None => []
  end.

(** the memory after a history read *)
Definition memory_read (session_id : option string) (env : Env) (st : State)
  : ConversationMemory.t :=
  match session_given session_id with
  | Some sid => (ConversationMemory.get_history sid 10 (now_history env) (memory st)).2
  | None => memory st
  end.

(** the memory after [add_message] for a given session *)
Definition memory_written (session_id : option string) (role content : string)
    (env : Env) (m : ConversationMemory.t) : ConversationMemory.t :=
  match session_given session_id with
  | Some sid =>
      ConversationMemory.add_message sid role content
        (now_sweep env) (now_created env) (now_message env) (now_accessed env) m
  | None => m
  end.

Definition empty_reply (query : string) (session_id : option string) (env : Env)
    (st : State) : string :=
  if 2 <? error_count st then trouble
  else "No matching records found. "
       ++ _generate_suggestion query (history_read session_id env st).

Definition after_empty (session_id : option string) (env : Env) (st : State) : State :=
  {| memory := if 2 <? error_count st then memory st
               else memory_read session_id env st;
     query_cache := query_cache st;
     error_count := 0 |}.

Definition after_answer (query response : string) (session_id : option string)
    (env : Env) (st : State) : State :=
  {| memory := memory_written session_id "assistant" response env
                 (memory_read session_id env st);
     query_cache := dict_set query response (query_cache st);
     error_count := 0 |}.

Definition after_error (error : string) (session_id : option string) (env : Env)
    (st : State) : State :=
  {| memory := memory_written session_id "system"
                 ("Error: " ++ take 100 (lower error)) env (memory st);
     query_cache := query_cache st;
     error_count := error_count st + 1 |}.

(** a result set without records, or the [None] of a failed statement *)
Definition no_records (results : result (option (list row))) : Prop :=
  results = Ok None \/ results = Ok (Some []).

(** the paths on which the body of the [try] returns *)
Inductive Returned (query : string) (session_id : option string) (env : Env)
    (st : State) (log : list Event) : string -> State -> list Event -> Prop :=
| Hit response :
    if_true (cache_lookup (normalize query) (query_cache st)) = Some response ->
    Returned query session_id env st log response st log
| Refused :
    if_true (cache_lookup (normalize query) (query_cache st)) = None ->
    _is_destructive_query query = true ->
    Returned query session_id env st log refusal st log
| NeedDetails pre :
    if_true (cache_lookup (normalize query) (query_cache st)) = None ->
    _is_destructive_query query = false ->
    prelude pre ->
    LLMInterface.generate_sql (sql_answer env) = None ->
    Returned query session_id env st log
      "I need more details to answer that."
      (set_error_count 0 st) (log ++ pre ++ [AskSql])%list
| Empty pre sql :
    if_true (cache_lookup (normalize query) (query_cache st)) = None ->
    _is_destructive_query query = false ->
    prelude pre ->
    LLMInterface.generate_sql (sql_answer env) = Some sql ->
    no_records (execute_query (db_answer env)) ->
    Returned query session_id env st log
      (empty_reply query session_id env st) (after_empty session_id env st)
      (log ++ pre ++ [AskSql; RunSql sql])%list
| Answered pre sql rec recs :
    if_true (cache_lookup (normalize query) (query_cache st)) = None ->
    _is_destructive_query query = false ->
    prelude pre ->
    LLMInterface.generate_sql (sql_answer env) = Some sql ->
    execute_query (db_answer env) = Ok (Some (rec :: recs)) ->
    Returned query session_id env st log
      (LLMInterface.format_response (format_answer env))
      (after_answer query (LLMInterface.format_response (format_answer env))
         session_id env st)
      (log ++ pre ++ [AskSql; RunSql sql; AskFormat])%list.

(** the path on which it raises [error] after the oracle calls [asked] *)
Definition Raised (query : string) (env : Env) (st : State) (error : string)
    (asked : list Event) : Prop :=
  if_true (cache_lookup (normalize query) (query_cache st)) = None /\
  _is_destructive_query query = false /\
  asked <> [] /\
  ~ In AskFormat asked /\
  (forall sql, In (RunSql sql) asked -> execute_query (db_answer env) = Raise error).

(** every cached response is a true value and no cached query is
    destructive *)
Definition cache_ok (st : State) : Prop :=
  Forall (fun kv : string * string =>
            truthy kv.2 = true /\ _is_destructive_query kv.1 = false)
         (query_cache st).

End Pipeline.

(** what the semantic search comes to: its records, or the text of what
    is raised, by the search, by its database call, or by [len(None)] *)
Definition search_failure (env : Env) (e : string) : Prop :=
  semantic_answer env = Raise e \/
  (exists run, semantic_answer env = Ok run /\ execute_query run = Raise e) \/
  (exists run, semantic_answer env = Ok run /\ execute_query run = Ok None /\
               e = "object of type 'NoneType' has no len()").

(** every stored message is a reply of the chatbot: its role is
    [assistant] or [system] *)
Definition replies_only (m : ConversationMemory.t) : Prop :=
  forall sid data msg,
    ConversationMemory.sessions m !! sid = Some data ->
    In msg (ConversationMemory.history data) ->
    ConversationMemory.role msg = "assistant" \/ ConversationMemory.role msg = "system".

(** no two cached queries have the same normalized form *)
Definition cache_distinct (st : State) : Prop :=
  NoDup (map (fun kv : string * string => normalize kv.1) (query_cache st)).

(** *** [clean_datetime] *)

(** The values [clean_datetime] walks through.  A date or a datetime
    carries the text its [isoformat()] gives; a tuple is none of the three
    types the function tests for. *)
#[warnings="-register-all"]
Inductive pyval : Type :=
| PNone
| PText (s : string)
| PNumber (n : Z)
| PDatetime (iso : string)
| PList (items : list pyval)
| PDict (entries : list (string * pyval))
| PTuple (items : list pyval).

Fixpoint clean_datetime (obj : pyval) : pyval :=
  match obj with
  | PDatetime iso => PText iso
  | PDict entries => PDict (map (fun kv => (kv.1, clean_datetime kv.2)) entries)
  | PList items => PList (map clean_datetime items)
  | _ => obj
  end.

(** a date or datetime stands in [obj], at any depth of lists and of
    dict values *)
Fixpoint holds_datetime (obj : pyval) : bool :=
  match obj with
  | PDatetime _ => true
  | PDict entries => existsb (fun kv => holds_datetime kv.2) entries
  | PList items => existsb holds_datetime items
  | _ => false
  end.

End VehicleChatbot.

(** ** [app/main.py] *)

Module Main.
Import PyStr DatabaseManager VehicleChatbot.

Record ChatRequest : Type := mkChatRequest
  { query : string; session_id : option string }.

Record ChatResponse : Type := mkChatResponse
  { response : string; response_session : string; timestamp : string }.

(** The module keeps a chatbot and, beside it, a conversation memory of
    its own. *)
Record App : Type := mkApp
  { chatbot : State; memory : ConversationMemory.t }.

Definition start : App :=
  {| chatbot := init; memory := ConversationMemory.new 60 |}.

(** What one request draws from outside: [uuid.uuid4()], the clock of the
    response, and the oracles. *)
Record Surroundings : Type := mkSurroundings
  { uuid4 : string; now_iso : string; oracles : Env }.

Section Endpoints.

Variable json_loads : string -> decoded.

(** [request.session_id or str(uuid.uuid4())] *)
Definition session_of (request : ChatRequest) (sur : Surroundings) : string :=
  match session_id request with
  | Some s => if truthy s then s else uuid4 sur
  | None => uuid4 sur
  end.

(** [chat_endpoint]; [Raise] is the [HTTPException] of status 500 *)
Definition chat_endpoint (request : ChatRequest) (sur : Surroundings) (app : App)
  : result ChatResponse * App :=
  let sid := session_of request sur in
  match process_query json_loads (query request) (Some sid) (oracles sur)
          (chatbot app, []) with
  | (Ok r, w) =>
      (Ok {| response := r; response_session := sid; timestamp := now_iso sur |},
       {| chatbot := w.1; memory := memory app |})
  | (Raise e, w) => (Raise e, {| chatbot := w.1; memory := memory app |})
  end.

(** [clear_session]: the endpoint [/session/{session_id}/clear] *)
Definition clear_session (session_id : string) (app : App) : App :=
  {| chatbot := chatbot app;
     memory := ConversationMemory.clear_session session_id (memory app) |}.

Inductive Request : Type :=
| Chat (request : ChatRequest) (sur : Surroundings)
| ClearSession (session_id : string).

Definition serve (app : App) (req : Request) : App :=
  match req with
  | Chat request sur => (chat_endpoint request sur app).2
  | ClearSession sid => clear_session sid app
  end.

Definition is_chat (req : Request) : bool :=
  match req with
  | Chat _ _ => true
  | ClearSession _ => false
  end.

End Endpoints.

End Main.

(** ** [app/app.py] *)

Module Cli.
Import PyStr VehicleChatbot.

(** What [input()] gives: a line, with the oracles of the call it leads
    to, or the interrupt of the keyboard. *)
Inductive Typed : Type :=
| Line (text : string) (env : Env)
| Interrupt.

(** [query.lower() in ['exit', 'quit']] *)
Definition leaves (text : string) : bool :=
  String.eqb (lower text) "exit" || String.eqb (lower text) "quit".

Section Loop.

Variable json_loads : string -> decoded.

(** the loop of [main]: the chatbot and the responses printed so far; it
    ends at the first leaving word or interrupt, or with the input *)
Fixpoint main_loop (inputs : list Typed) (st : State) (printed : list string)
  : State * list string :=
  match inputs with
  | [] => (st, printed)
  | Interrupt :: _ => (st, printed)
  | Line text env :: inputs' =>
      if leaves text then (st, printed)
      else
        match process_query json_loads text None env (st, []) with
        | (Ok r, w) => main_loop inputs' w.1 (printed ++ [r])%list
        | (Raise _, w) => (w.1, printed)
        end
  end.

End Loop.

End Cli.

(** ** Sample oracles and calls *)

Module Samples.
Import DatabaseManager VehicleChatbot.

(** [json.loads] on the JSON literals; any other text is refused. *)
Definition literal_json_loads (s : string) : decoded :=
  if String.eqb s "true" then Decoded (JBool true)
  else if String.eqb s "false" then Decoded (JBool false)
  else if String.eqb s "null" then Decoded JNull
  else if String.eqb s "{}" then Decoded (JObj [])
  else if String.eqb s "[]" then Decoded (JArr [])
  else JSONDecodeError.

(** The routing oracle is silent, the SQL oracle answers, the statement
    selects nothing. *)
Definition quiet_env : Env :=
  {| route_answer := None;
     semantic_answer := Raise "index unavailable";
     sql_answer := Some "SELECT * FROM inspections WHERE ramp = 'chicago'";
     db_answer := NoResultSet;
     format_answer := Some "found 2 inspections at chicago.";
     now_history := 1000;
     now_sweep := 1001;
     now_created := 1002;
     now_message := 1003;
     now_accessed := 1004 |}.

(** the same oracles with another behaviour of the cursor *)
Definition with_db (env : Env) (run : cursor_run) : Env :=
  {| route_answer := route_answer env;
     semantic_answer := semantic_answer env;
     sql_answer := sql_answer env;
     db_answer := run;
     format_answer := format_answer env;
     now_history := now_history env;
     now_sweep := now_sweep env;
     now_created := now_created env;
     now_message := now_message env;
     now_accessed := now_accessed env |}.

Definition one_record : cursor_run :=
  ResultSet ["vin"; "ramp"; "source_file"]
            [[DText "1FTFW4L80SFB31494"; DText "chicago"; DText "report_07.pdf"]].

Definition answered_call : Call :=
  mkCall "Show Chicago" (Some "s1") (with_db quiet_env one_record).

Definition miss : Call := mkCall "show trucks at chicago" (Some "s1") quiet_env.

Definition db_down : Env :=
  with_db quiet_env (CursorFails "connection already closed").

(** The SQL oracle answers with a misspelt statement, which the database
    rejects. *)
Definition misspelt_env : Env :=
  {| route_answer := None;
     semantic_answer := Raise "index unavailable";
     sql_answer := Some "SELEC * FROM inspections";
     db_answer := ExecuteFails "syntax error at or near SELEC";
     format_answer := None;
     now_history := 1000;
     now_sweep := 1001;
     now_created := 1002;
     now_message := 1003;
     now_accessed := 1004 |}.

(** the statement [_clean_sql] makes of the SQL answer of [quiet_env] *)
Definition chicago_sql : string :=
  "SELECT * FROM inspections WHERE ramp ILIKE '%chicago%' LIMIT 1000;".

(** the same oracles with other answers to the routing and SQL prompts *)
Definition with_answers (env : Env) (route sql : option string) : Env :=
  {| route_answer := route;
     semantic_answer := semantic_answer env;
     sql_answer := sql;
     db_answer := db_answer env;
     format_answer := format_answer env;
     now_history := now_history env;
     now_sweep := now_sweep env;
     now_created := now_created env;
     now_message := now_message env;
     now_accessed := now_accessed env |}.

(** the double quote *)
Definition dq : string := String (ascii_of_nat 34) EmptyString.

(** a routing answer that asks for the semantic path *)
Definition semantic_text : string :=
  "{" ++ dq ++ "use_semantic" ++ dq ++ ": true, "
      ++ dq ++ "reason" ++ dq ++ ": " ++ dq ++ "vague damage" ++ dq ++ "}".

(** [json.loads] on the JSON literals and on [semantic_text] *)
Definition sample_json_loads (s : string) : decoded :=
  if String.eqb s semantic_text
  then Decoded (JObj [("use_semantic", JBool true); ("reason", JStr "vague damage")])
  else literal_json_loads s.




(** the same oracles with another outcome of the semantic search *)
Definition with_search (env : Env) (found : result cursor_run) : Env :=
  {| route_answer := route_answer env;
     semantic_answer := found;
     sql_answer := sql_answer env;
     db_answer := db_answer env;
     format_answer := format_answer env;
     now_history := now_history env;
     now_sweep := now_sweep env;
     now_created := now_created env;
     now_message := now_message env;
     now_accessed := now_accessed env |}.

(** the same oracles with another answer to the formatting prompt *)
Definition with_format (env : Env) (answer : option string) : Env :=
  {| route_answer := route_answer env;
     semantic_answer := semantic_answer env;
     sql_answer := sql_answer env;
     db_answer := db_answer env;
     format_answer := answer;
     now_history := now_history env;
     now_sweep := now_sweep env;
     now_created := now_created env;
     now_message := now_message env;
     now_accessed := now_accessed env |}.

Definition anonymous_call : Call :=
  mkCall "Show Chicago" None (with_db quiet_env one_record).

End Samples.

(** * Properties *)

(** ** Strings *)

Module PyStrFacts.
Import PyStr.

Lemma startswith_space_head k c t :
  solid k = true -> is_space c = true ->
  startswith k (String c t) = match k with EmptyString => true | _ => false end.
Proof.
  destruct k as [|a k']; [reflexivity|]. simpl. intros Hk Hc.
  destruct (Ascii.eqb_spec a c) as [->|]; [|reflexivity].
  rewrite Hc in Hk. discriminate.
Qed.

Lemma contains_empty s : contains "" s = true.
Proof. destruct s; reflexivity. Qed.

Lemma contains_lstrip k s : solid k = true -> contains k (lstrip s) = contains k s.
Proof.
  intros Hk. induction s as [|c t IH]; [reflexivity|].
  cbn [lstrip]. destruct (is_space c) eqn:Hc; [|reflexivity].
  rewrite IH. cbn [contains]. rewrite (startswith_space_head k c t Hk Hc).
  destruct k; [|reflexivity]. now rewrite contains_empty.
Qed.

Lemma rstrip_cons c t :
  rstrip (String c t) =
  if truthy (rstrip t) then String c (rstrip t)
  else if is_space c then "" else String c "".
Proof. cbn [rstrip]. destruct (rstrip t); reflexivity. Qed.

Lemma startswith_rstrip k s : solid k = true -> startswith k (rstrip s) = startswith k s.
Proof.
  revert k. induction s as [|c t IH]; intros k Hk; [reflexivity|].
  rewrite rstrip_cons. destruct k as [|a k']; [now destruct (truthy _), (is_space c)|].
  cbn [solid] in Hk. apply andb_true_iff in Hk as [Ha Hk'].
  specialize (IH k' Hk').
  destruct (truthy (rstrip t)) eqn:Ht.
  - cbn [startswith]. now rewrite IH.
  - destruct (rstrip t) eqn:Hr; [|discriminate]. cbn [startswith].
    destruct (Ascii.eqb_spec a c) as [->|Hne].
    + apply negb_true_iff in Ha. rewrite Ha. cbn [startswith].
      rewrite Ascii.eqb_refl. exact IH.
    + destruct (is_space c); cbn [startswith]; [reflexivity|].
      destruct (Ascii.eqb_spec a c); [contradiction|reflexivity].
Qed.

Lemma contains_rstrip k s : solid k = true -> contains k (rstrip s) = contains k s.
Proof.
  intros Hk. induction s as [|c t IH]; [reflexivity|].
  cbn [contains]. rewrite <- (startswith_rstrip k (String c t) Hk), <- IH.
  rewrite rstrip_cons.
  destruct (truthy (rstrip t)) eqn:Ht; [reflexivity|].
  destruct (rstrip t) eqn:Hr; [|discriminate].
  destruct (is_space c); cbn [contains]; destruct (startswith k ""); reflexivity.
Qed.

Lemma contains_strip k s : solid k = true -> contains k (strip s) = contains k s.
Proof. intros Hk. unfold strip. now rewrite contains_rstrip, contains_lstrip. Qed.

Lemma contains_any_strip ks s :
  forallb solid ks = true -> contains_any ks (strip s) = contains_any ks s.
Proof.
  unfold contains_any. induction ks as [|k ks IH]; [reflexivity|].
  cbn [forallb existsb]. intros H. apply andb_true_iff in H as [Hk Hks].
  now rewrite contains_strip, IH.
Qed.

Lemma truthy_true s : truthy s = true <-> s <> "".
Proof. destruct s; cbn; split; congruence. Qed.

End PyStrFacts.

(** ** SQL post-processing *)

Module CleanSqlFacts.
Import PyStr PyStrFacts LLMInterface.

Lemma clean_sql_stages raw :
  _clean_sql raw =
    before_char ";"%char
      (if contains "LIMIT" (upper (before_limit raw)) then before_limit raw
       else before_limit raw ++ " LIMIT 1000") ++ ";".
Proof. reflexivity. Qed.

Lemma append_cons x a b : String x a ++ b = String x (a ++ b).
Proof. reflexivity. Qed.

Lemma append_assoc a b c : a ++ (b ++ c) = (a ++ b) ++ c.
Proof.
  induction a as [|x a IH]; [reflexivity|]. rewrite !append_cons. now rewrite IH.
Qed.

Lemma startswith_app k a b : startswith k a = true -> startswith k (a ++ b) = true.
Proof.
  revert a. induction k as [|c k IH]; intros [|x a]; try easy.
  rewrite append_cons. cbn [startswith].
  destruct (Ascii.eqb c x); [apply IH|easy].
Qed.

Lemma contains_app_l k a b : contains k a = true -> contains k (a ++ b) = true.
Proof.
  induction a as [|x a IH]; cbn [contains].
  - rewrite orb_false_r. destruct k; [|discriminate]. intros _. apply contains_empty.
  - intros H. change (contains k (String x (a ++ b)) = true). cbn [contains].
    apply orb_true_iff. apply orb_true_iff in H as [H|H].
    + left. exact (startswith_app k (String x a) b H).
    + right. auto.
Qed.

Lemma split_at_char c s :
  contains (String c "") s = true ->
  exists rest, s = before_char c s ++ String c rest.
Proof.
  induction s as [|x s IH]; cbn [contains startswith before_char]; [discriminate|].
  rewrite Ascii.eqb_sym.
  destruct (Ascii.eqb_spec x c) as [->|Hne].
  - intros _. exists s. reflexivity.
  - rewrite orb_false_l. intros H. destruct (IH H) as [rest Hr]. exists rest.
    change (String x s = String x (before_char c s ++ String c rest)).
    f_equal. exact Hr.
Qed.

Lemma before_char_app c s t :
  contains (String c "") s = true -> before_char c (s ++ t) = before_char c s.
Proof.
  induction s as [|x s IH]; cbn [contains startswith before_char]; [discriminate|].
  rewrite Ascii.eqb_sym. change (String x s ++ t) with (String x (s ++ t)).
  cbn [before_char].
  destruct (Ascii.eqb_spec x c) as [->|Hne]; [reflexivity|].
  rewrite orb_false_l. intros H. now rewrite IH.
Qed.

Lemma map_chars_app f a b : map_chars f (a ++ b) = map_chars f a ++ map_chars f b.
Proof.
  induction a as [|x a IH]; [reflexivity|].
  rewrite append_cons. cbn [map_chars]. rewrite append_cons. now rewrite IH.
Qed.

Lemma before_char_free c s : contains (String c "") (before_char c s) = false.
Proof.
  induction s as [|x s IH]; cbn [before_char]; [reflexivity|].
  destruct (Ascii.eqb_spec x c) as [->|Hne]; [reflexivity|].
  cbn [contains startswith]. rewrite IH.
  destruct (Ascii.eqb_spec c x); [congruence|reflexivity].
Qed.

(** the result is one statement: a text without [;], closed by [;] *)
Lemma clean_sql_single_statement raw :
  exists body, _clean_sql raw = body ++ ";" /\ contains ";" body = false.
Proof.
  rewrite clean_sql_stages. eexists. split; [reflexivity|]. apply before_char_free.
Qed.

(** The row limit is appended after the text and the text is then cut at
    its first [;]: a statement that has a [;], be it only its terminator,
    and no [LIMIT] comes out without [LIMIT]. *)
Lemma limit_lost_behind_terminator raw :
  contains ";" (before_limit raw) = true ->
  contains "LIMIT" (upper (before_limit raw)) = false ->
  _clean_sql raw = before_char ";"%char (before_limit raw) ++ ";" /\
  contains "LIMIT" (upper (_clean_sql raw)) = false.
Proof.
  intros Hsemi Hlimit. rewrite clean_sql_stages, Hlimit.
  rewrite before_char_app by exact Hsemi. split; [reflexivity|].
  destruct (split_at_char _ _ Hsemi) as [rest Hrest].
  destruct (contains "LIMIT" (upper (before_char ";"%char (before_limit raw) ++ ";")))
    eqn:Hc; [|reflexivity].
  rewrite Hrest in Hlimit.
  change (String ";"%char rest) with (";" ++ rest) in Hlimit.
  unfold upper in *. rewrite append_assoc in Hlimit.
  rewrite map_chars_app in Hlimit.
  rewrite (contains_app_l _ _ _ Hc) in Hlimit. discriminate.
Qed.

Lemma before_char_absent c s t :
  contains (String c "") s = false -> before_char c (s ++ t) = s ++ before_char c t.
Proof.
  induction s as [|x s IH]; [reflexivity|].
  cbn [contains startswith]. rewrite Ascii.eqb_sym, append_cons. cbn [before_char].
  destruct (Ascii.eqb_spec x c) as [->|Hne]; [discriminate|].
  rewrite orb_false_l. intros H. now rewrite IH, append_cons.
Qed.

(** without a [;] and without [LIMIT] the limit is appended *)
Lemma limit_appended_without_terminator raw :
  contains ";" (before_limit raw) = false ->
  contains "LIMIT" (upper (before_limit raw)) = false ->
  _clean_sql raw = before_limit raw ++ " LIMIT 1000;".
Proof.
  intros Hsemi Hlimit. rewrite clean_sql_stages, Hlimit.
  rewrite before_char_absent by exact Hsemi. now rewrite <- append_assoc.
Qed.

(** C3: on a statement that ends with its terminator the exact match on
    the text column is rewritten and the text is cut after the first
    statement, but no row limit is left in the result. *)
Theorem clean_sql_terminated_statement :
  _clean_sql "SELECT vin FROM inspections WHERE ramp = 'chicago';" =
    "SELECT vin FROM inspections WHERE ramp ILIKE '%chicago%';" /\
  contains "LIMIT" (upper (_clean_sql "SELECT vin FROM inspections WHERE ramp = 'chicago';"))
    = false.
Proof. split; reflexivity. Qed.

(** without a [;] the limit is appended *)
Example clean_sql_unterminated_statement :
  _clean_sql "SELECT vin FROM inspections WHERE Inspector_Name='bob' AND mfg_model = 'f150'" =
    "SELECT vin FROM inspections WHERE inspector_name ILIKE '%bob%' AND mfg_model ILIKE '%f150%' LIMIT 1000;".
Proof. reflexivity. Qed.

(** of several statements the first is kept, and it too has lost the limit *)
Example clean_sql_two_statements :
  _clean_sql "SELECT vin FROM inspections; DROP TABLE inspections" =
    "SELECT vin FROM inspections;".
Proof. reflexivity. Qed.

(** a predicate on a column outside [TEXT_COLUMNS] is left as it is *)
Example clean_sql_exact_column :
  _clean_sql "SELECT ramp FROM inspections WHERE vin = '1FTFW4L80SFB31494' LIMIT 1" =
    "SELECT ramp FROM inspections WHERE vin = '1FTFW4L80SFB31494' LIMIT 1;".
Proof. reflexivity. Qed.

End CleanSqlFacts.

(** ** Enrichment *)

Module EnrichmentFacts.
Import PyStr DatabaseManager VehicleChatbot.

(** *** Counting dicts *)

Lemma assoc_none_keys {A} k (d : list (string * A)) :
  assoc k d = None <-> ~ In k (map fst d).
Proof.
  induction d as [|[k' v] d IH]; cbn; [tauto|].
  destruct (String.eqb_spec k k') as [->|Hne].
  - split; [discriminate|]. intros H. exfalso. auto.
  - rewrite IH. split; [intros H [E|E]; [congruence|auto]|tauto].
Qed.

Lemma assoc_in {A} k v (d : list (string * A)) :
  keys_unique d -> In (k, v) d -> assoc k d = Some v.
Proof.
  unfold keys_unique. induction d as [|[k' v'] d IH]; cbn; [tauto|].
  intros Hnd [E|Hin].
  - injection E as -> ->. now rewrite String.eqb_refl.
  - apply NoDup_cons in Hnd as [Hk' Hnd].
    destruct (String.eqb_spec k k') as [->|_]; [|auto].
    exfalso. apply Hk'. apply list_elem_of_In.
    change k' with (fst (k', v)). now apply in_map.
Qed.

Lemma in_assoc {A} k v (d : list (string * A)) :
  assoc k d = Some v -> In (k, v) d.
Proof.
  induction d as [|[k' v'] d IH]; cbn; [discriminate|].
  destruct (String.eqb_spec k k') as [->|_]; [intros [= ->]; auto|auto].
Qed.

Lemma assoc_dict_set {A} c k (v : A) d :
  assoc c (dict_set k v d) = if String.eqb c k then Some v else assoc c d.
Proof.
  induction d as [|[k' v'] d IH]; cbn.
  - reflexivity.
  - destruct (String.eqb_spec k k') as [->|Hne]; cbn.
    + now destruct (String.eqb c k').
    + rewrite IH. destruct (String.eqb_spec c k') as [->|_]; [|reflexivity].
      destruct (String.eqb_spec k' k); congruence.
Qed.

Lemma keys_dict_set {A} k (v : A) d :
  map fst (dict_set k v d) =
    match assoc k d with
    | Some _ => map fst d
    | None => (map fst d ++ [k])%list
    end.
Proof.
  induction d as [|[k' v'] d IH]; cbn; [reflexivity|].
  destruct (String.eqb_spec k k') as [->|Hne]; cbn; [reflexivity|].
  rewrite IH. now destruct (assoc k d).
Qed.

Lemma keys_unique_dict_set {A} k (v : A) d :
  keys_unique d -> keys_unique (dict_set k v d).
Proof.
  unfold keys_unique. intros Hd. rewrite keys_dict_set.
  destruct (assoc k d) eqn:Hk; [exact Hd|].
  apply NoDup_app. repeat split; [exact Hd| |apply NoDup_singleton].
  intros x Hx Hx'. apply list_elem_of_singleton in Hx' as ->.
  apply assoc_none_keys in Hk. apply Hk. now apply list_elem_of_In.
Qed.

Lemma count_of_bump c k d :
  count_of (bump k d) c = if String.eqb c k then S (count_of d k) else count_of d c.
Proof.
  unfold count_of, bump. rewrite assoc_dict_set.
  now destruct (String.eqb c k).
Qed.

Lemma counted_cons x xs d : counted (x :: xs) d = counted xs (bump x d).
Proof. reflexivity. Qed.

Lemma count_of_counted xs d c :
  count_of (counted xs d) c = (count_occ string_dec xs c + count_of d c)%nat.
Proof.
  revert d. induction xs as [|x xs IH]; intros d; [reflexivity|].
  rewrite counted_cons, IH, count_of_bump. cbn [count_occ].
  destruct (string_dec x c) as [->|Hne].
  - rewrite String.eqb_refl. lia.
  - destruct (String.eqb_spec c x); [congruence|reflexivity].
Qed.

Lemma keys_unique_counted xs d : keys_unique d -> keys_unique (counted xs d).
Proof.
  revert d. induction xs as [|x xs IH]; intros d Hd; [exact Hd|].
  rewrite counted_cons. apply IH. now apply keys_unique_dict_set.
Qed.

Lemma keys_counted xs d k :
  In k (map fst (counted xs d)) -> In k xs \/ In k (map fst d).
Proof.
  revert d. induction xs as [|x xs IH]; intros d; [auto|].
  rewrite counted_cons. intros H. apply IH in H as [H|H]; [left; now right|].
  unfold bump in H. rewrite keys_dict_set in H.
  destruct (assoc x d); [auto|].
  apply in_app_iff in H as [H|[<-|[]]]; [auto|left; now left].
Qed.

Lemma counted_nil_inv xs : counted xs [] = [] -> xs = [].
Proof.
  destruct xs as [|x xs]; [reflexivity|]. intros H. exfalso.
  pose proof (count_of_counted (x :: xs) [] x) as Hc.
  rewrite H in Hc. cbn in Hc. destruct (string_dec x x); [discriminate|congruence].
Qed.

(** *** The largest count *)

Lemma max_from_spec best l :
  (max_from best l = best \/ In (max_from best l) l) /\
  (best.2 <= (max_from best l).2)%nat /\
  (forall x, In x l -> (x.2 <= (max_from best l).2)%nat).
Proof.
  revert best. induction l as [|y l IH]; intros best; cbn [max_from In]; [intuition lia|].
  destruct (IH (if (best.2 <? y.2)%nat then y else best)) as (Hin & Hbest & Hall).
  destruct (Nat.ltb_spec best.2 y.2) as [Hlt|Hge].
  - repeat split.
    + destruct Hin as [->|Hin]; auto.
    + lia.
    + intros x [<-|Hx]; [exact Hbest|auto].
  - repeat split.
    + destruct Hin as [->|Hin]; auto.
    + exact Hbest.
    + intros x [<-|Hx]; [lia|auto].
Qed.

Lemma max_item_spec d l :
  match l with
  | [] => max_item d l = d
  | _ => In (max_item d l) l /\ forall x, In x l -> (x.2 <= (max_item d l).2)%nat
  end.
Proof.
  destruct l as [|y l]; [reflexivity|]. cbn [max_item].
  destruct (max_from_spec y l) as ([->|Hin] & Hy & Hall).
  - split; [now left|]. intros x [<-|Hx]; [lia|]. specialize (Hall x Hx). congruence.
  - split; [now right|]. intros x [<-|Hx]; [exact Hy|auto].
Qed.

Lemma top_of_counted placeholder xs :
  most_frequent placeholder xs (max_item (placeholder, O) (counted xs [])).
Proof.
  pose proof (max_item_spec (placeholder, O) (counted xs [])) as H.
  destruct (counted xs []) as [|y l] eqn:Hd.
  - left. split; [now apply counted_nil_inv|exact H].
  - right. destruct H as [Hin Hmax]. rewrite <- Hd in *.
    set (top := max_item _ _) in *.
    assert (Hu : keys_unique (counted xs [])) by (apply keys_unique_counted; constructor).
    assert (Hcount : forall k n, In (k, n) (counted xs []) ->
                                 n = count_occ string_dec xs k).
    { intros k n Hk. pose proof (count_of_counted xs [] k) as Hc.
      unfold count_of in Hc. rewrite (assoc_in _ _ _ Hu Hk) in Hc. cbn in Hc. lia. }
    repeat split.
    + destruct (keys_counted xs [] top.1) as [Hk|[]]; [|exact Hk].
      now apply (in_map fst) in Hin.
    + apply Hcount. now destruct top.
    + intros x. destruct (assoc x (counted xs [])) as [n|] eqn:Hx.
      * apply in_assoc in Hx. rewrite <- (Hcount _ _ Hx). exact (Hmax _ Hx).
      * pose proof (count_of_counted xs [] x) as Hc. unfold count_of in Hc.
        rewrite Hx in Hc. cbn in Hc. lia.
Qed.

(** *** The loop of [_enrich_results] *)

Lemma tally_damage rows acc :
  damage_types (fold_left tally_row rows acc) =
    counted (damage_categories rows) (damage_types acc).
Proof.
  revert acc. induction rows as [|rec rows IH]; intros acc; [reflexivity|].
  cbn [fold_left]. rewrite IH. unfold damage_categories. cbn [omap list_omap tally_row damage_types].
  now destruct (get_text rec "damage_descriptions").
Qed.

Lemma tally_inspectors rows acc :
  inspectors (fold_left tally_row rows acc) =
    counted (inspector_names rows) (inspectors acc).
Proof.
  revert acc. induction rows as [|rec rows IH]; intros acc; [reflexivity|].
  cbn [fold_left]. rewrite IH. unfold inspector_names. cbn [omap list_omap tally_row inspectors].
  now destruct (get_text rec "inspector_name").
Qed.

Lemma tally_files rows acc f :
  f ∈ files (fold_left tally_row rows acc) <-> In f (source_names rows) \/ f ∈ files acc.
Proof.
  revert acc. induction rows as [|rec rows IH]; intros acc; [cbn; tauto|].
  cbn [fold_left]. rewrite IH. unfold source_names. cbn [omap list_omap tally_row files].
  destruct (get_text rec "source_file") as [src|]; [|tauto].
  cbn [In]. rewrite elem_of_union, elem_of_singleton. intuition congruence.
Qed.

#[local] Instance str_le_total : Total str_le.
Proof. intros a b. apply String.leb_total. Qed.

Lemma Sorted_firstn {A} (R : relation A) n l : Sorted R l -> Sorted R (firstn n l).
Proof.
  intros Hl. revert n. induction Hl as [|x l Hl IH Hx]; intros [|n]; cbn; auto.
  constructor; [apply IH|].
  destruct Hx as [|y l Hy]; destruct n; cbn; constructor. exact Hy.
Qed.

Lemma source_files_spec rows :
  let l := firstn 3 (sorted (elements (files (tally rows)))) in
  (List.length l <= 3)%nat /\
  NoDup l /\
  Sorted str_le l /\
  (forall f, In f l -> In f (source_names rows)) /\
  (forall f, In f (source_names rows) -> In f l \/ List.length l = 3%nat).
Proof.
  cbv zeta. unfold sorted.
  set (all := merge_sort str_le (elements (files (tally rows)))).
  assert (Hperm : all ≡ₚ elements (files (tally rows))) by apply merge_sort_Permutation.
  assert (Hmem : forall f, In f all <-> In f (source_names rows)).
  { intros f. rewrite <- list_elem_of_In, Hperm, elem_of_elements.
    unfold tally. rewrite tally_files. cbn. rewrite elem_of_empty. tauto. }
  repeat split.
  - rewrite length_take. lia.
  - eapply sublist_NoDup; [|apply sublist_take].
    rewrite Hperm. apply NoDup_elements.
  - apply Sorted_firstn, Sorted_merge_sort. exact _.
  - intros f Hf. apply Hmem. apply list_elem_of_In.
    apply (subseteq_take 3 all). now apply list_elem_of_In.
  - intros f Hf. apply Hmem in Hf.
    destruct (Nat.le_gt_cases (List.length all) 3) as [Hle|Hgt].
    + left. now rewrite take_ge.
    + right. rewrite length_take. lia.
Qed.

(** C9 (amended): for a result set with at least one record the summary
    holds the number of records; at most three source files, distinct, in
    ascending order, each taken from a record, and all of them when there
    are fewer than three; a most frequent damage category with its count,
    where the category of a record is the text of [damage_descriptions]
    before the first ['-'], stripped and lower-cased, or [("none", 0)] when
    no record has one; and likewise the most frequent lower-cased inspector
    name, or [("unknown", 0)]. *)
Theorem enrichment_summary rows semantic_matches :
  rows <> [] ->
  exists e,
    _enrich_results rows semantic_matches = Some e /\
    record_count e = List.length rows /\
    (List.length (source_files e) <= 3)%nat /\
    NoDup (source_files e) /\
    Sorted str_le (source_files e) /\
    (forall f, In f (source_files e) -> In f (source_names rows)) /\
    (forall f, In f (source_names rows) ->
               In f (source_files e) \/ List.length (source_files e) = 3%nat) /\
    most_frequent "none" (damage_categories rows) (top_damage e) /\
    most_frequent "unknown" (inspector_names rows) (top_inspector e).
Proof.
  intros Hrows. destruct rows as [|rec rows]; [contradiction|].
  eexists. split; [reflexivity|]. cbn [record_count source_files top_damage top_inspector].
  destruct (source_files_spec (rec :: rows)) as (H1 & H2 & H3 & H4 & H5).
  repeat split; auto.
  - unfold tally. rewrite tally_damage. apply top_of_counted.
  - unfold tally. rewrite tally_inspectors. apply top_of_counted.
Qed.

(** an empty result set has the empty summary *)
Lemma enrichment_of_nothing semantic_matches :
  _enrich_results [] semantic_matches = None.
Proof. reflexivity. Qed.

Lemma enrichment_summary_witness :
  exists e,
    _enrich_results [[("damage_descriptions", SStr "Dent - Door")]] None = Some e /\
    record_count e = 1%nat /\
    (List.length (source_files e) <= 3)%nat /\
    NoDup (source_files e) /\
    Sorted str_le (source_files e) /\
    (forall f, In f (source_files e) ->
               In f (source_names [[("damage_descriptions", SStr "Dent - Door")]])) /\
    (forall f, In f (source_names [[("damage_descriptions", SStr "Dent - Door")]]) ->
               In f (source_files e) \/ List.length (source_files e) = 3%nat) /\
    most_frequent "none"
      (damage_categories [[("damage_descriptions", SStr "Dent - Door")]]) (top_damage e) /\
    most_frequent "unknown"
      (inspector_names [[("damage_descriptions", SStr "Dent - Door")]]) (top_inspector e).
Proof.
  apply (enrichment_summary [[("damage_descriptions", SStr "Dent - Door")]] None).
  discriminate.
Defined.

(** C9, as the claim states it, fails: the category the summary reports
    for ["Dent - Door"] is ["dent"], not the lower-cased segment before the
    first ['-'], which keeps its blank; two records that differ in that
    blank only are counted as one category. *)
Lemma category_is_stripped :
  spec_damage_category "Dent - Door" = "dent " /\
  _enrich_results [[("damage_descriptions", SStr "Dent - Door")];
                   [("damage_descriptions", SStr "Dent-Hood")]] None =
    Some {| source_files := [];
            top_damage := ("dent", 2%nat);
            top_inspector := ("unknown", O);
            record_count := 2 |} /\
  ("dent", 2%nat) <>
    (spec_damage_category "Dent - Door",
     count_occ string_dec
       (map spec_damage_category ["Dent - Door"; "Dent-Hood"])
       (spec_damage_category "Dent - Door")).
Proof. vm_compute. repeat split; discriminate. Qed.

End EnrichmentFacts.

(** ** The conversation memory *)

Module MemoryFacts.
Import ConversationMemory.

Lemma clean_expired_lookup now m sid :
  sessions (_clean_expired now m) !! sid =
    match sessions m !! sid with
    | Some data => if expired now (ttl m) data then None else Some data
    | None => None
    end.
Proof.
  unfold _clean_expired. cbn.
  destruct (sessions m !! sid) as [data|] eqn:Hm.
  - destruct (expired now (ttl m) data) eqn:He.
    + apply map_lookup_filter_None. right. intros x Hx. cbn. congruence.
    + apply map_lookup_filter_Some. split; [exact Hm|exact He].
  - apply map_lookup_filter_None. now left.
Qed.

Lemma absent_after_access m sid a :
  sessions m !! sid = None -> ~ appends_to sid a -> sessions (access m a) !! sid = None.
Proof.
  intros Hm Ha.
  destruct a as [s n now|s role content t0 t1 t2 t3|s]; cbn [access appends_to] in *.
  - unfold get_history. destruct (sessions (_clean_expired now m) !! s); cbn [snd];
      rewrite clean_expired_lookup; now rewrite Hm.
  - unfold add_message. cbn [sessions].
    rewrite lookup_insert_ne by exact Ha.
    rewrite clean_expired_lookup. now rewrite Hm.
  - unfold clear_session. cbn [sessions].
    destruct (decide (s = sid)) as [->|Hne].
    + apply lookup_delete_eq.
    + now rewrite lookup_delete_ne.
Qed.

Lemma absent_after_accesses later m sid :
  sessions m !! sid = None ->
  Forall (fun a => ~ appends_to sid a) later ->
  sessions (fold_left access later m) !! sid = None.
Proof.
  revert m. induction later as [|a later IH]; intros m Hm Hl; [exact Hm|].
  inversion Hl; subst. cbn. apply IH; [|assumption]. now apply absent_after_access.
Qed.

Lemma absent_history m sid n now :
  sessions m !! sid = None ->
  get_history sid n now m = ([], _clean_expired now m).
Proof.
  intros Hm. unfold get_history.
  pose proof (clean_expired_lookup now m sid) as H. rewrite Hm in H. now rewrite H.
Qed.

(** C7: a lookup made when more than the idle window has passed since the
    session was last written returns no history and deletes the session;
    every later lookup of that key, at any time, returns no history as long
    as no new message is added under the key. *)
Theorem expired_session_absent m sid data now n :
  sessions m !! sid = Some data ->
  ttl m < now - last_accessed data ->
  (get_history sid n now m).1 = [] /\
  sessions (get_history sid n now m).2 !! sid = None /\
  forall later n' now',
    Forall (fun a => ~ appends_to sid a) later ->
    (get_history sid n' now' (fold_left access later (get_history sid n now m).2)).1 = [] /\
    sessions (get_history sid n' now' (fold_left access later (get_history sid n now m).2)).2
      !! sid = None.
Proof.
  intros Hm Hexp.
  assert (Hgone : sessions (_clean_expired now m) !! sid = None).
  { rewrite clean_expired_lookup, Hm. unfold expired.
    now apply Z.ltb_lt in Hexp as ->. }
  assert (Hget : get_history sid n now m = ([], _clean_expired now m)).
  { unfold get_history. now rewrite Hgone. }
  rewrite Hget. cbn [fst snd]. repeat split; auto.
  - rewrite absent_history; [reflexivity|]. now apply absent_after_accesses.
  - rewrite absent_history by now apply absent_after_accesses.
    cbn [snd]. rewrite clean_expired_lookup.
    now rewrite absent_after_accesses.
Qed.

Lemma expired_session_absent_witness :
  (get_history "s1" 10 3600000001
     (add_message "s1" "assistant" "hello" 0 0 0 0 (new 60))).1 = [].
Proof.
  assert (H1 : sessions (add_message "s1" "assistant" "hello" 0 0 0 0 (new 60)) !! "s1" =
               Some {| history := [mkMessage "assistant" "hello" 0];
                       created := 0; last_accessed := 0 |})
    by (vm_compute; reflexivity).
  assert (H2 : ttl (add_message "s1" "assistant" "hello" 0 0 0 0 (new 60)) <
               3600000001 -
               last_accessed {| history := [mkMessage "assistant" "hello" 0];
                                created := 0; last_accessed := 0 |})
    by (vm_compute; reflexivity).
  exact (proj1 (expired_session_absent _ "s1" _ 3600000001 10 H1 H2)).
Defined.

(** at the end of the idle window the session is still there *)
Example session_kept_at_window_end :
  (get_history "s1" 10 3600000000
     (add_message "s1" "assistant" "hello" 0 0 0 0 (new 60))).1 =
  [mkMessage "assistant" "hello" 0].
Proof. vm_compute. reflexivity. Qed.

End MemoryFacts.

(** ** The orchestrator *)

Module ChatbotFacts.
Import PyStr PyStrFacts DatabaseManager VehicleChatbot.

(** The proofs below unfold the monad and the methods of the orchestrator
    only; what the methods call is kept folded. *)
#[local] Arguments _is_destructive_query : simpl never.
#[local] Arguments normalize : simpl never.
#[local] Arguments error_message : simpl never.
#[local] Arguments _generate_suggestion : simpl never.
#[local] Arguments _enrich_results : simpl never.
#[local] Arguments LLMInterface.format_response : simpl never.
#[local] Arguments LLMInterface.generate_sql : simpl never.
#[local] Arguments LLMInterface.route_query : simpl never.
#[local] Arguments ConversationMemory.get_history : simpl never.
#[local] Arguments ConversationMemory.add_message : simpl never.
#[local] Arguments execute_query : simpl never.
#[local] Arguments json_getitem : simpl never.
#[local] Arguments json_get : simpl never.
#[local] Arguments json_truthy : simpl never.
#[local] Arguments PyStr.lower : simpl never.
#[local] Arguments PyStr.take : simpl never.
#[local] Arguments String.append : simpl never.
#[local] Arguments dict_set : simpl never.

Ltac unfold_monad :=
  unfold mbind, M_bind, mret, M_ret, lift, raise, get, modify, ask, try_except in *.

Section Facts.

Variable json_loads : string -> decoded.

Lemma set_memory_same st : set_memory (memory st) st = st.
Proof. now destruct st. Qed.

Lemma run_route q env st log :
  exists res, _route_query json_loads q env (st, log) = (res, (st, log ++ [AskRouting])%list).
Proof.
  unfold _route_query. unfold_monad. cbn.
  repeat case_match; simplify_eq; eauto.
Qed.

Lemma run_semantic q routing env st log :
  exists res asked,
    _get_semantic_matches q routing env (st, log) = (res, (st, log ++ asked)%list) /\
    match res with
    | Ok _ => asked = [] \/ asked = [AskSemantic; FetchMatches]
    | Raise _ => asked = [AskSemantic] \/ asked = [AskSemantic; FetchMatches]
    end.
Proof.
  unfold _get_semantic_matches, search. unfold_monad. cbn.
  destruct (json_truthy _).
  - destruct (semantic_answer env) as [run|e]; cbn.
    + rewrite <- app_assoc. cbn.
      destruct (execute_query run) as [[rows|]|e];
        eexists _, _; (split; [reflexivity|cbn; auto]).
    + eexists _, _; (split; [reflexivity|cbn; auto]).
  - exists (Ok None), []. rewrite app_nil_r. auto.
Qed.

Lemma run_empty q sid env st log :
  _handle_empty_results q sid env (st, log) =
    (Ok (empty_reply q sid env st),
     (set_memory (if 2 <? error_count st then memory st else memory_read sid env st) st,
      log)).
Proof.
  unfold _handle_empty_results, empty_reply, memory_read, history_read, read_history.
  unfold_monad. cbn.
  destruct (2 <? error_count st); [now rewrite set_memory_same|].
  destruct (session_given sid) as [s|]; cbn; [|now rewrite set_memory_same].
  now destruct (ConversationMemory.get_history _ _ _ _).
Qed.

Lemma run_flow q routing sem sid env st log :
  _execute_query_flow q routing sem sid env (st, log) =
    match LLMInterface.generate_sql (sql_answer env) with
    | None => (Ok "I need more details to answer that.", (st, log ++ [AskSql])%list)
    | Some sql =>
        match execute_query (db_answer env) with
        | Raise e => (Raise e, (st, log ++ [AskSql; RunSql sql])%list)
        | Ok None | Ok (Some []) =>
            (Ok (empty_reply q sid env st),
             (set_memory (if 2 <? error_count st then memory st
                          else memory_read sid env st) st,
              log ++ [AskSql; RunSql sql])%list)
        | Ok (Some (_ :: _)) =>
            let r := LLMInterface.format_response (format_answer env) in
            (Ok r,
             ({| memory := memory_written sid "assistant" r env (memory_read sid env st);
                 query_cache := dict_set q r (query_cache st);
                 error_count := error_count st |},
              log ++ [AskSql; RunSql sql; AskFormat])%list)
        end
    end.
Proof.
  unfold _execute_query_flow. unfold_monad. cbn.
  destruct (LLMInterface.generate_sql _) as [sql|]; [|reflexivity].
  cbn. rewrite <- !app_assoc. cbn.
  destruct (execute_query _) as [[[|rec recs]|]|e]; try reflexivity.
  - apply run_empty.
  - unfold _update_state, memory_written, memory_read, read_history, write_message.
    unfold_monad. cbn.
    destruct (session_given sid) as [s|]; cbn.
    + destruct (ConversationMemory.get_history _ _ _ _) as [h m]. cbn.
      rewrite <- !app_assoc. reflexivity.
    + rewrite <- !app_assoc. reflexivity.
  - apply run_empty.
Qed.

Lemma process_query_of_pipeline q sid env w :
  process_query json_loads q sid env w =
    match pipeline json_loads q sid env w with
    | (Ok r, w') => (Ok r, w')
    | (Raise e, (st1, log1)) =>
        (Ok (error_message (lower e)), (after_error e sid env st1, log1))
    end.
Proof.
  unfold process_query, try_except.
  destruct (pipeline json_loads q sid env w) as [[r|e] [st1 log1]]; [reflexivity|].
  unfold _handle_error, after_error, memory_written, write_message. unfold_monad. cbn.
  destruct (session_given sid); reflexivity.
Qed.

(** The body of the [try] takes exactly the paths of [Returned] and
    [Raised]; when it raises it has written nothing. *)
Theorem pipeline_outcome q sid env st log :
  (exists r st' log',
     pipeline json_loads q sid env (st, log) = (Ok r, (st', log')) /\
     Returned q sid env st log r st' log') \/
  (exists e asked,
     pipeline json_loads q sid env (st, log) = (Raise e, (st, log ++ asked)%list) /\
     Raised q env st e asked).
Proof.
  destruct (if_true (cache_lookup (normalize q) (query_cache st))) as [r|] eqn:Hc.
  { left. exists r, st, log. split; [|now constructor].
    unfold pipeline, _get_cached_response. unfold_monad. cbn. now rewrite Hc. }
  destruct (_is_destructive_query q) eqn:Hd.
  { left. exists refusal, st, log. split; [|now constructor].
    unfold pipeline, _get_cached_response. unfold_monad. cbn. now rewrite Hc, Hd. }
  assert (Hp : pipeline json_loads q sid env (st, log) =
    match _route_query json_loads q env (st, log) with
    | (Ok routing, w1) =>
        match _get_semantic_matches q routing env w1 with
        | (Ok sem, w2) =>
            match _execute_query_flow q routing sem sid env w2 with
            | (Ok r, w3) => (Ok r, (set_error_count 0 w3.1, w3.2))
            | (Raise e, w3) => (Raise e, w3)
            end
        | (Raise e, w2) => (Raise e, w2)
        end
    | (Raise e, w1) => (Raise e, w1)
    end).
  { unfold pipeline, _get_cached_response. unfold_monad. cbn. rewrite Hc, Hd.
    repeat case_match; simplify_eq; reflexivity. }
  destruct (run_route q env st log) as [res Hr].
  rewrite Hr in Hp. destruct res as [routing|e].
  2:{ right. exists e, [AskRouting]. split; [exact Hp|].
      repeat split; auto; cbn; intuition congruence. }
  destruct (run_semantic q routing env st (log ++ [AskRouting])%list)
    as (res & asked & Hs & Hasked).
  rewrite Hs in Hp. rewrite <- app_assoc in Hp.
  destruct res as [sem|e].
  2:{ right. exists e, ([AskRouting] ++ asked)%list. split; [exact Hp|].
      repeat split; auto; destruct Hasked; subst; cbn; intuition congruence. }
  assert (Hpre : prelude ([AskRouting] ++ asked)).
  { unfold prelude. destruct Hasked; subst; auto. }
  rewrite run_flow in Hp.
  destruct (LLMInterface.generate_sql (sql_answer env)) as [sql|] eqn:Hsql.
  2:{ left. rewrite Hp. rewrite <- app_assoc. do 3 eexists. split; [reflexivity|].
      cbn [fst snd]. now apply NeedDetails. }
  destruct (execute_query (db_answer env)) as [[[|rec recs]|]|e] eqn:Hdb.
  - left. rewrite Hp. rewrite <- app_assoc. do 3 eexists. split; [reflexivity|].
    cbn [fst snd].
    replace (set_error_count 0 _) with (after_empty sid env st)
      by (unfold after_empty, set_error_count, set_memory; now destruct (2 <? _)).
    apply Empty; auto. right; auto.
  - left. rewrite Hp. rewrite <- app_assoc. do 3 eexists. split; [reflexivity|].
    cbn [fst snd]. eapply Answered; eauto.
  - left. rewrite Hp. rewrite <- app_assoc. do 3 eexists. split; [reflexivity|].
    cbn [fst snd].
    replace (set_error_count 0 _) with (after_empty sid env st)
      by (unfold after_empty, set_error_count, set_memory; now destruct (2 <? _)).
    apply Empty; auto. left; auto.
  - right. rewrite <- app_assoc in Hp.
    exists e, (([AskRouting] ++ asked) ++ [AskSql; RunSql sql])%list. split; [exact Hp|].
    repeat split; auto; destruct Hasked; subst; cbn; intuition congruence.
Qed.

(** The paths of [process_query]: it returns what its body returns, or
    the translation of what its body raises. *)
Theorem process_query_outcome q sid env st log r st' log' :
  process_query json_loads q sid env (st, log) = (Ok r, (st', log')) ->
  (pipeline json_loads q sid env (st, log) = (Ok r, (st', log')) /\
   Returned q sid env st log r st' log') \/
  (exists e asked,
     pipeline json_loads q sid env (st, log) = (Raise e, (st, log ++ asked)%list) /\
     Raised q env st e asked /\
     r = error_message (lower e) /\
     st' = after_error e sid env st /\
     log' = (log ++ asked)%list).
Proof.
  rewrite process_query_of_pipeline.
  destruct (pipeline_outcome q sid env st log)
    as [(r0 & st0 & log0 & Hp & Hret)|(e & asked & Hp & Hraised)];
    rewrite Hp; intros H; simplify_eq.
  - left. auto.
  - right. exists e, asked. auto.
Qed.

Lemma process_query_total q sid env w :
  exists r w', process_query json_loads q sid env w = (Ok r, w').
Proof.
  rewrite process_query_of_pipeline.
  destruct (pipeline json_loads q sid env w) as [[r|e] [st1 log1]]; eauto.
Qed.

Lemma cache_hit q sid env st log r :
  if_true (cache_lookup (normalize q) (query_cache st)) = Some r ->
  process_query json_loads q sid env (st, log) = (Ok r, (st, log)).
Proof.
  intros H. rewrite process_query_of_pipeline.
  unfold pipeline, _get_cached_response. unfold_monad. cbn. now rewrite H.
Qed.

Lemma refused_run q sid env st log :
  if_true (cache_lookup (normalize q) (query_cache st)) = None ->
  _is_destructive_query q = true ->
  process_query json_loads q sid env (st, log) = (Ok refusal, (st, log)).
Proof.
  intros H Hd. rewrite process_query_of_pipeline.
  unfold pipeline, _get_cached_response. unfold_monad. cbn. now rewrite H, Hd.
Qed.

(** *** The cache over sequences of calls *)

Lemma destructive_normalize q :
  _is_destructive_query q = contains_any destructive_keywords (normalize q).
Proof.
  unfold _is_destructive_query, normalize. now rewrite contains_any_strip.
Qed.

Lemma format_response_truthy answer :
  truthy (LLMInterface.format_response answer) = true.
Proof.
  unfold LLMInterface.format_response, LLMInterface._polish_response.
  now destruct (replace _ _ _).
Qed.

Lemma Forall_dict_set {A} (P : string * A -> Prop) k v (d : list (string * A)) :
  P (k, v) -> Forall P d -> Forall P (dict_set k v d).
Proof.
  intros Hv. unfold dict_set. induction 1 as [|[k' v'] d Hx Hd IH]; cbn.
  - constructor; auto.
  - destruct (String.eqb_spec k k') as [->|]; constructor; auto.
Qed.

Lemma cache_ok_init : cache_ok init.
Proof. constructor. Qed.

Lemma cache_ok_step q sid env st log r st' log' :
  cache_ok st ->
  process_query json_loads q sid env (st, log) = (Ok r, (st', log')) ->
  cache_ok st'.
Proof.
  intros Hok H. apply process_query_outcome in H as [[_ H]|(e & asked & _ & _ & _ & -> & _)].
  - destruct H; auto. unfold cache_ok, after_answer. cbn.
    apply Forall_dict_set; [|exact Hok].
    cbn. split; [apply format_response_truthy|assumption].
  - exact Hok.
Qed.

Lemma state_after_run st c :
  exists r log',
    process_query json_loads (call_query c) (call_session c) (call_env c) (st, []) =
      (Ok r, (state_after json_loads st c, log')).
Proof.
  unfold state_after.
  destruct (process_query_total (call_query c) (call_session c) (call_env c) (st, []))
    as (r & [st' log'] & H).
  rewrite H. eauto.
Qed.

Lemma cache_ok_run_all calls st :
  cache_ok st -> cache_ok (run_all json_loads st calls).
Proof.
  revert st. induction calls as [|c calls IH]; intros st Hok; [exact Hok|].
  cbn. apply IH. destruct (state_after_run st c) as (r & log' & H).
  eapply cache_ok_step; eauto.
Qed.

Lemma lookup_some_in n cache r :
  cache_lookup n cache = Some r -> exists k, In (k, r) cache.
Proof.
  induction cache as [|[k v] cache IH]; cbn; [discriminate|].
  destruct (String.eqb _ _).
  - intros [= ->]. eauto.
  - intros H. destruct (IH H) as [k' Hk']. eauto.
Qed.

Lemma lookup_if_true st n :
  cache_ok st ->
  if_true (cache_lookup n (query_cache st)) = cache_lookup n (query_cache st).
Proof.
  intros Hok. destruct (cache_lookup n (query_cache st)) as [r|] eqn:H; [|reflexivity].
  apply lookup_some_in in H as [k Hk].
  unfold cache_ok in Hok. rewrite List.Forall_forall in Hok.
  destruct (Hok _ Hk) as [Ht _]. cbn in *. now rewrite Ht.
Qed.

Lemma lookup_destructive st q :
  cache_ok st -> _is_destructive_query q = true ->
  cache_lookup (normalize q) (query_cache st) = None.
Proof.
  unfold cache_ok. intros Hok Hd.
  induction Hok as [|[k v] cache [_ Hk] _ IH]; [reflexivity|].
  cbn in *. destruct (String.eqb_spec (normalize k) (normalize q)) as [E|_]; [|exact IH].
  rewrite destructive_normalize in Hk, Hd. rewrite E in Hk. congruence.
Qed.

(** C2: a query that contains one of the denylisted words in any letter
    case is answered with the fixed refusal, whatever calls the chatbot has
    served before; no oracle is asked (so no SQL is synthesised) and the
    chatbot is left as it was. *)
Theorem destructive_query_refused calls q sid env log :
  _is_destructive_query q = true ->
  process_query json_loads q sid env (run_all json_loads init calls, log) =
    (Ok "I can only provide read-only inspection data.",
     (run_all json_loads init calls, log)).
Proof.
  intros Hd. apply refused_run; [|exact Hd].
  pose proof (cache_ok_run_all calls init cache_ok_init) as Hok.
  rewrite (lookup_if_true _ _ Hok). now apply lookup_destructive.
Qed.

Lemma lookup_after_update n q r cache :
  cache_lookup (normalize q) cache = None ->
  cache_lookup n (dict_set q r cache) =
    match cache_lookup n cache with
    | Some r' => Some r'
    | None => if String.eqb (normalize q) n then Some r else None
    end.
Proof.
  unfold dict_set. induction cache as [|[k v] cache IH]; cbn; [reflexivity|].
  destruct (String.eqb_spec (normalize k) (normalize q)) as [|Hne]; [discriminate|].
  intros H. destruct (String.eqb_spec q k) as [->|_]; [contradiction|].
  cbn. destruct (String.eqb (normalize k) n); [reflexivity|]. exact (IH H).
Qed.

(** a response once cached for a normalized query stays the one found *)
Lemma cached_step q sid env st log r st' log' n c :
  cache_ok st ->
  cache_lookup n (query_cache st) = Some c ->
  process_query json_loads q sid env (st, log) = (Ok r, (st', log')) ->
  cache_lookup n (query_cache st') = Some c.
Proof.
  intros Hok Hc H.
  apply process_query_outcome in H as [[_ H]|(e & asked & _ & _ & _ & -> & _)]; [|exact Hc].
  destruct H as [| | | |pre sql rec recs Hmiss]; auto.
  cbn. rewrite (lookup_if_true _ _ Hok) in Hmiss.
  rewrite lookup_after_update by exact Hmiss. now rewrite Hc.
Qed.

Lemma cached_run_all calls st n c :
  cache_ok st ->
  cache_lookup n (query_cache st) = Some c ->
  cache_lookup n (query_cache (run_all json_loads st calls)) = Some c.
Proof.
  revert st. induction calls as [|call calls IH]; intros st Hok Hc; [exact Hc|].
  cbn. destruct (state_after_run st call) as (r & log' & H).
  apply IH; [eapply cache_ok_step|eapply cached_step]; eauto.
Qed.

Lemma asked_format_answered q sid env st r st' log' :
  process_query json_loads q sid env (st, []) = (Ok r, (st', log')) ->
  In AskFormat log' ->
  if_true (cache_lookup (normalize q) (query_cache st)) = None /\
  _is_destructive_query q = false /\
  r = LLMInterface.format_response (format_answer env) /\
  st' = after_answer q r sid env st.
Proof.
  intros H Hin.
  apply process_query_outcome in H as [[_ H]|(e & asked & _ & (_ & _ & _ & Hn & _) & _ & _ & ->)];
    [|contradiction].
  destruct H as [| |pre ? ? Hpre|pre ? ? ? Hpre|]; auto; cbn in Hin; try contradiction.
  - destruct Hpre; subst; cbn in Hin; intuition congruence.
  - destruct Hpre; subst; cbn in Hin; intuition congruence.
Qed.

(** C5: once a query has run the whole flow (its answer was formatted),
    any later query that is equal to it after lower-casing and stripping,
    whatever calls were served in between, is answered with the same
    response string without asking any oracle and without changing the
    chatbot. *)
Theorem repeated_query_served_from_cache
    calls1 q1 sid1 env1 r1 st1 log1 calls2 q2 sid2 env2 log :
  process_query json_loads q1 sid1 env1 (run_all json_loads init calls1, []) =
    (Ok r1, (st1, log1)) ->
  In AskFormat log1 ->
  normalize q2 = normalize q1 ->
  process_query json_loads q2 sid2 env2 (run_all json_loads st1 calls2, log) =
    (Ok r1, (run_all json_loads st1 calls2, log)).
Proof.
  intros H1 Hfmt Hnorm.
  pose proof (cache_ok_run_all calls1 init cache_ok_init) as Hok0.
  pose proof (cache_ok_step _ _ _ _ _ _ _ _ Hok0 H1) as Hok1.
  destruct (asked_format_answered _ _ _ _ _ _ _ H1 Hfmt) as (Hmiss & _ & Hr & ->).
  rewrite (lookup_if_true _ _ Hok0) in Hmiss.
  assert (Hc : cache_lookup (normalize q1)
                 (query_cache (after_answer q1 r1 sid1 env1
                                 (run_all json_loads init calls1))) = Some r1).
  { cbn. rewrite lookup_after_update by exact Hmiss.
    rewrite Hmiss. now rewrite String.eqb_refl. }
  apply cache_hit. rewrite Hnorm.
  rewrite (lookup_if_true _ _ (cache_ok_run_all calls2 _ Hok1)).
  now apply cached_run_all.
Qed.

(** *** Errors *)

(** C8: when the body of [process_query] raises, [process_query] itself
    returns: the answer is chosen by the words of the lower-cased error
    text, [connection] first, then [syntax] or [sql], else the generic
    message. *)
Theorem exception_translated q sid env w e w1 :
  pipeline json_loads q sid env w = (Raise e, w1) ->
  exists w2,
    process_query json_loads q sid env w =
      (Ok (if contains "connection" (lower e)
           then "Our systems are temporarily unavailable. Please try again later."
           else if contains "syntax" (lower e) || contains "sql" (lower e)
           then "I didn't understand that request. Please try rephrasing."
           else "An unexpected error occurred. Please try again."),
       w2).
Proof.
  intros H. rewrite process_query_of_pipeline, H. destruct w1 as [st1 log1].
  eexists. unfold error_message, contains_any. cbn [existsb].
  now rewrite orb_false_r.
Qed.

(** *** The error counter and empty results *)

(** C6 (amended): one counter serves all sessions.  A call whose body
    raises adds one to it; a call that asks an oracle and whose body
    returns resets it, an empty result included; a call that asks no
    oracle (cache hit, refusal) leaves the chatbot as it was.  A query
    whose statement yields no records is answered with the generic message
    exactly when the counter exceeds 2 on entry, and with a suggestion
    otherwise. *)
Theorem error_counter_rules q sid env st r st' log' :
  process_query json_loads q sid env (st, []) = (Ok r, (st', log')) ->
  (forall e w, pipeline json_loads q sid env (st, []) = (Raise e, w) ->
               error_count st' = error_count st + 1) /\
  (forall r0 w, pipeline json_loads q sid env (st, []) = (Ok r0, w) ->
                log' <> [] -> error_count st' = 0) /\
  (log' = [] -> st' = st) /\
  (forall sql, In (RunSql sql) log' ->
               no_records (execute_query (db_answer env)) ->
               error_count st' = 0 /\
               r = if 2 <? error_count st
                   then "I'm having trouble finding that information. Please try different criteria."
                   else "No matching records found. "
                        ++ _generate_suggestion q (history_read sid env st)).
Proof.
  intros H.
  apply process_query_outcome in H
    as [[Hp H]|(e & asked & Hp & (_ & _ & Hne & _ & Hdb) & -> & -> & ->)].
  - split; [|split; [|split]].
    + intros e w He. congruence.
    + intros _ _ _ Hlog. destruct H; cbn; congruence.
    + intros Hlog. destruct H as [| |pre ? ? Hpre|pre ? ? ? Hpre|pre ? ? ? ? ? Hpre]; auto;
        destruct Hpre; subst; discriminate.
    + intros sql0 Hin Hno.
      destruct H as [| |pre ? ? Hpre ?|pre ? ? ? Hpre ? ?|pre ? ? ? ? ? Hpre ? Hrows];
        cbn in *; try contradiction.
      * destruct Hpre; subst; cbn in *; intuition congruence.
      * split; reflexivity.
      * destruct Hno as [Hn|Hn]; rewrite Hrows in Hn; discriminate.
  - split; [|split; [|split]].
    + reflexivity.
    + intros r0 w Hr. congruence.
    + cbn. intros Hlog. contradiction.
    + cbn. intros sql0 Hin Hno. rewrite (Hdb _ Hin) in Hno. destruct Hno; discriminate.
Qed.

(** *** What a call writes *)

(** what [format_response] returns when the oracle is silent *)
Lemma format_response_silent answer :
  answer = None \/ answer = Some "" ->
  LLMInterface.format_response answer =
    "I couldn't find that information. Please try rephrasing.".
Proof. intros [->| ->]; vm_compute; reflexivity. Qed.

(** C10 (amended): a cache hit leaves the whole chatbot unchanged and asks
    no oracle.  The cache is written by a call whose statement returned
    records, and by no other: the entry is the query with what
    [format_response] returned, which is the polished answer of the oracle
    or, when the oracle is silent, the fixed sentence that stands in for
    it.  A call that is refused, that gets no statement, whose statement
    yields no records or whose body raises leaves the cache as it was.
    The memory is left alone, or swept by a history read, or given the
    returned response as an assistant message, or, when the body raised,
    given a system message with the error text. *)
Theorem state_writes q sid env st r st' log' :
  process_query json_loads q sid env (st, []) = (Ok r, (st', log')) ->
  (forall c, if_true (cache_lookup (normalize q) (query_cache st)) = Some c ->
             r = c /\ st' = st /\ log' = []) /\
  ((~ In AskFormat log' /\ query_cache st' = query_cache st) \/
   (In AskFormat log' /\
    (exists rec recs, execute_query (db_answer env) = Ok (Some (rec :: recs))) /\
    r = LLMInterface.format_response (format_answer env) /\
    query_cache st' = dict_set q r (query_cache st))) /\
  (In AskFormat log' ->
   format_answer env = None \/ format_answer env = Some "" ->
   r = "I couldn't find that information. Please try rephrasing." /\
   query_cache st' =
     dict_set q "I couldn't find that information. Please try rephrasing."
       (query_cache st)) /\
  (_is_destructive_query q = true \/
   LLMInterface.generate_sql (sql_answer env) = None \/
   no_records (execute_query (db_answer env)) \/
   (exists e w, pipeline json_loads q sid env (st, []) = (Raise e, w)) ->
   ~ In AskFormat log' /\ query_cache st' = query_cache st) /\
  (memory st' = memory st \/
   memory st' = memory_read sid env st \/
   (In AskFormat log' /\
    memory st' = memory_written sid "assistant" r env (memory_read sid env st)) \/
   (exists e w,
      pipeline json_loads q sid env (st, []) = (Raise e, w) /\
      memory st' =
        memory_written sid "system" ("Error: " ++ take 100 (lower e)) env (memory st))).
Proof.
  intros H.
  assert (Hcache :
    (~ In AskFormat log' /\ query_cache st' = query_cache st) \/
    (In AskFormat log' /\
     (exists rec recs, execute_query (db_answer env) = Ok (Some (rec :: recs))) /\
     r = LLMInterface.format_response (format_answer env) /\
     query_cache st' = dict_set q r (query_cache st) /\
     _is_destructive_query q = false /\
     (exists sql, LLMInterface.generate_sql (sql_answer env) = Some sql) /\
     (exists w, pipeline json_loads q sid env (st, []) = (Ok r, w)))).
  { pose proof H as H0.
    apply process_query_outcome in H0
      as [[Hp H0]|(e & asked & _ & (_ & _ & _ & Hn & _) & _ & -> & ->)];
      [|left; split; [exact Hn|reflexivity]].
    destruct H0 as [| |pre ? ? Hpre|pre ? ? ? Hpre|pre sql rec recs ? ? Hpre Hsql Hdb].
    - left. split; [intros []|reflexivity].
    - left. split; [intros []|reflexivity].
    - left. split; [|reflexivity].
      destruct Hpre; subst; cbn; intuition congruence.
    - left. split; [|reflexivity].
      destruct Hpre; subst; cbn; intuition congruence.
    - right. split; [rewrite !in_app_iff; cbn; intuition|].
      repeat split; eauto. }
  split; [|split; [|split; [|split]]].
  - intros c Hc. rewrite (cache_hit q sid env st [] c Hc) in H. now simplify_eq.
  - destruct Hcache as [Hc|(Hin & Hrec & Hr & Hq & _)]; [left|right]; auto.
  - intros Hin Hsilent.
    destruct Hcache as [[Hn _]|(_ & _ & Hr & Hq & _)]; [contradiction|].
    rewrite (format_response_silent _ Hsilent) in Hr. subst r. auto.
  - intros Hpath.
    destruct Hcache as [Hc|(_ & (rec & recs & Hrec) & _ & _ & Hd & (sql & Hsql) & (w & Hw))];
      [exact Hc|exfalso].
    destruct Hpath as [Hd'|[Hsql'|[[Hno|Hno]|(e & w' & Hw')]]]; congruence.
  - apply process_query_outcome in H as [[_ H]|(e & asked & Hp & _ & _ & -> & _)].
    + destruct H; cbn; auto.
      * destruct (2 <? error_count st); auto.
      * right. right. left. rewrite !in_app_iff. cbn. intuition.
    + right. right. right. exists e. eexists. split; [exact Hp|reflexivity].
Qed.

(** *** Failed statements *)

(** [execute_query] tells a failed statement ([None]) from one without
    records ([[]]). *)
Lemma execute_query_distinguishes e :
  execute_query (ExecuteFails e) = Ok None /\
  execute_query NoResultSet = Ok (Some []) /\
  execute_query (ExecuteFails e) <> execute_query NoResultSet.
Proof. repeat split. discriminate. Qed.

(** C1: the orchestrator does not act on that difference: a call in
    which the statement fails ends exactly as the same call in which the
    statement selects nothing, with the same answer, the same chatbot and
    the same oracle calls, where the claim wants the error path. *)
Theorem failed_statement_answered_as_no_match q sid env e w :
  process_query json_loads q sid (Samples.with_db env (ExecuteFails e)) w =
  process_query json_loads q sid (Samples.with_db env NoResultSet) w.
Proof.
  assert (Hflow : forall routing sem w0,
    _execute_query_flow q routing sem sid (Samples.with_db env (ExecuteFails e)) w0 =
    _execute_query_flow q routing sem sid (Samples.with_db env NoResultSet) w0).
  { intros routing sem [st log]. rewrite !run_flow. reflexivity. }
  rewrite !process_query_of_pipeline.
  assert (Hp : pipeline json_loads q sid (Samples.with_db env (ExecuteFails e)) w =
               pipeline json_loads q sid (Samples.with_db env NoResultSet) w).
  { unfold pipeline, _get_cached_response. unfold_monad. cbn.
    destruct (if_true _); [reflexivity|].
    destruct (_is_destructive_query q); [reflexivity|].
    change (_route_query json_loads q (Samples.with_db env (ExecuteFails e)))
      with (_route_query json_loads q (Samples.with_db env NoResultSet)).
    destruct (_route_query _ _ _ _) as [[routing|e1] w1]; [|reflexivity].
    change (_get_semantic_matches q routing (Samples.with_db env (ExecuteFails e)))
      with (_get_semantic_matches q routing (Samples.with_db env NoResultSet)).
    destruct (_get_semantic_matches _ _ _ _) as [[sem|e2] w2]; [|reflexivity].
    now rewrite Hflow. }
  rewrite Hp. reflexivity.
Qed.

End Facts.

(** *** The theorems at sample calls *)

Import Samples.


Lemma destructive_query_refused_witness :
  _is_destructive_query "Please DROP the table" = true /\
  process_query literal_json_loads "Please DROP the table" (Some "s1") quiet_env
    (run_all literal_json_loads init [answered_call; miss], []) =
    (Ok "I can only provide read-only inspection data.",
     (run_all literal_json_loads init [answered_call; miss], [])).
Proof.
  split; [reflexivity|].
  apply (destructive_query_refused literal_json_loads [answered_call; miss]). reflexivity.
Defined.

Lemma repeated_query_served_from_cache_witness :
  process_query literal_json_loads "  show CHICAGO " None quiet_env
    (run_all literal_json_loads (state_after literal_json_loads init answered_call) [miss], []) =
    (Ok "Found 2 inspections at chicago.",
     (run_all literal_json_loads (state_after literal_json_loads init answered_call) [miss], [])).
Proof.
  apply (repeated_query_served_from_cache literal_json_loads [] "Show Chicago" (Some "s1")
           (with_db quiet_env one_record) "Found 2 inspections at chicago."
           (state_after literal_json_loads init answered_call)
           [AskRouting; AskSql; RunSql chicago_sql; AskFormat]
           [miss] "  show CHICAGO " None quiet_env []).
  - vm_compute. reflexivity.
  - cbn. auto.
  - reflexivity.
Defined.

Lemma exception_translated_witness :
  exists w2,
    process_query literal_json_loads "show trucks" (Some "s1") db_down (init, []) =
      (Ok "Our systems are temporarily unavailable. Please try again later.", w2).
Proof.
  apply (exception_translated literal_json_loads "show trucks" (Some "s1") db_down (init, [])
           "connection already closed"
           (init, [AskRouting; AskSql; RunSql chicago_sql])).
  vm_compute. reflexivity.
Defined.

Lemma error_counter_rules_witness :
  error_count (state_after literal_json_loads init miss) = 0 /\
  (process_query literal_json_loads "show trucks at chicago" (Some "s1") quiet_env (init, [])).1 =
    Ok "No matching records found. Try being more specific with your criteria.".
Proof.
  pose proof (error_counter_rules literal_json_loads "show trucks at chicago" (Some "s1") quiet_env init
                "No matching records found. Try being more specific with your criteria."
                (state_after literal_json_loads init miss)
                [AskRouting; AskSql; RunSql chicago_sql]) as H.
  destruct H as (_ & _ & _ & H); [vm_compute; reflexivity|].
  destruct (H chicago_sql) as [H0 _]; [cbn; auto|right; reflexivity|].
  split; [exact H0|vm_compute; reflexivity].
Defined.

(** C6, as the claim states it, fails: after three queries in a row
    without records in one session, the fourth such query of that session is
    still answered with a suggestion, and the counter is 0. *)
Lemma three_misses_then_suggestion :
  let st3 := run_all literal_json_loads init [miss; miss; miss] in
  error_count st3 = 0 /\
  (process_query literal_json_loads "show trucks at chicago" (Some "s1") quiet_env (st3, [])).1 =
    Ok "No matching records found. Try being more specific with your criteria." /\
  (process_query literal_json_loads "show trucks at chicago" (Some "s1") quiet_env (st3, [])).1 <>
    Ok "I'm having trouble finding that information. Please try different criteria.".
Proof. vm_compute. repeat split; discriminate. Qed.

Lemma state_writes_witness :
  query_cache (state_after literal_json_loads init answered_call) =
    [("Show Chicago", "Found 2 inspections at chicago.")].
Proof.
  pose proof (state_writes literal_json_loads "Show Chicago" (Some "s1") (with_db quiet_env one_record)
                init "Found 2 inspections at chicago."
                (state_after literal_json_loads init answered_call)
                [AskRouting; AskSql; RunSql chicago_sql; AskFormat]) as H.
  destruct H as (_ & [[H _]|(_ & _ & _ & H)] & _); [vm_compute; reflexivity| |exact H].
  exfalso. apply H. cbn. auto.
Defined.

(** the counter is shared: three failed calls of one session silence the
    suggestions of another session *)
Example failures_elsewhere_silence_suggestions :
  let failed := mkCall "show trucks" (Some "s1") db_down in
  let st3 := run_all literal_json_loads init [failed; failed; failed] in
  error_count st3 = 3 /\
  (process_query literal_json_loads "show trucks at chicago" (Some "s2") quiet_env
     (st3, [])).1 =
    Ok "I'm having trouble finding that information. Please try different criteria.".
Proof. vm_compute. split; reflexivity. Qed.

(** C10, as the claim states it, fails: a call whose body raises formats
    no response and yet writes the memory of its session; and a call whose
    formatting oracle is silent stores the sentence that stands in for the
    answer, in the cache and in the memory, as it would store an answer. *)
Lemma writes_without_formatted_response :
  let res := process_query literal_json_loads "show trucks" (Some "s1") db_down (init, []) in
  let silent := with_format (with_db quiet_env one_record) None in
  let res' := process_query literal_json_loads "Show Chicago" (Some "s1") silent (init, []) in
  (res.1 = Ok "Our systems are temporarily unavailable. Please try again later." /\
   ~ In AskFormat res.2.2 /\
   query_cache res.2.1 = [] /\
   ConversationMemory.history <$> (ConversationMemory.sessions (memory res.2.1) !! "s1") =
     Some [ConversationMemory.mkMessage "system" "Error: connection already closed" 1003] /\
   memory res.2.1 <> memory init) /\
  (res'.1 = Ok "I couldn't find that information. Please try rephrasing." /\
   query_cache res'.2.1 =
     [("Show Chicago", "I couldn't find that information. Please try rephrasing.")] /\
   ConversationMemory.history <$> (ConversationMemory.sessions (memory res'.2.1) !! "s1") =
     Some [ConversationMemory.mkMessage "assistant"
             "I couldn't find that information. Please try rephrasing." 1003]).
Proof.
  cbv zeta. split; [repeat split|repeat split; vm_compute; reflexivity].
  - vm_compute. intuition discriminate.
  - intros H.
    apply (f_equal (fun m => ConversationMemory.sessions m !! "s1")) in H.
    vm_compute in H. discriminate.
Qed.

(** C1 at a sample call: the statement the database rejects is answered as
    a query without records, not with an error message, and the counter of
    errors stays at 0. *)
Example failed_statement_sample :
  process_query literal_json_loads "show trucks at chicago" None misspelt_env (init, []) =
    (Ok "No matching records found. Try being more specific with your criteria.",
     (init, [AskRouting; AskSql; RunSql "SELECT * SELEC * FROM inspections LIMIT 1000;"])).
Proof. vm_compute. reflexivity. Qed.

End ChatbotFacts.

(** ** Routing *)

Module RoutingFacts.
Import PyStr LLMInterface DatabaseManager VehicleChatbot ChatbotFacts.

#[local] Arguments _is_destructive_query : simpl never.
#[local] Arguments normalize : simpl never.
#[local] Arguments error_message : simpl never.
#[local] Arguments LLMInterface.generate_sql : simpl never.
#[local] Arguments LLMInterface.format_response : simpl never.
#[local] Arguments execute_query : simpl never.
#[local] Arguments PyStr.lower : simpl never.
#[local] Arguments PyStr.take : simpl never.

Section Routing.

Variable json_loads : string -> decoded.




End Routing.




(** a decoded answer is returned as it is, whatever its shape *)
Example decoded_answer_is_kept :
  route_query Samples.literal_json_loads (Some "true") = Ok (JBool true).
Proof. reflexivity. Qed.

End RoutingFacts.

(** * Further properties *)

(** ** The conversation memory: writes, reads and the window *)

Module MemoryMore.
Import ConversationMemory MemoryFacts.

Lemma last_n_length {A} n (l : list A) : n <> O -> (List.length (last_n n l) <= n)%nat.
Proof.
  intros Hn. destruct n as [|n]; [contradiction|]. unfold last_n.
  rewrite length_drop. lia.
Qed.

Lemma last_n_suffix {A} n (l : list A) : last_n n l `suffix_of` l.
Proof.
  destruct n as [|n]; unfold last_n; [reflexivity|]. apply suffix_drop.
Qed.

Lemma last_n_last {A} n (l : list A) x : n <> O -> last (last_n n (l ++ [x])) = Some x.
Proof.
  intros Hn. destruct n as [|n]; [contradiction|]. unfold last_n.
  rewrite length_app. cbn [List.length].
  destruct (Nat.le_gt_cases (List.length l) n) as [Hle|Hgt].
  - replace (List.length l + 1 - S n)%nat with O by lia. cbn [drop]. apply last_snoc.
  - rewrite drop_app_le by lia. apply last_snoc.
Qed.

(** the history a session has when a message is added at sweep time [t0] *)
Lemma add_message_lookup sid role content t0 t1 t2 t3 m :
  sessions (add_message sid role content t0 t1 t2 t3 m) !! sid =
    Some {| history :=
              match sessions (_clean_expired t0 m) !! sid with
              | Some d => history d
              | None => []
              end ++ [mkMessage role content t2];
            created :=
              match sessions (_clean_expired t0 m) !! sid with
              | Some d => created d
              | None => t1
              end;
            last_accessed := t3 |}.
Proof.
  unfold add_message. cbn [sessions]. rewrite lookup_insert_eq.
  now destruct (sessions (_clean_expired t0 m) !! sid).
Qed.

Lemma add_message_ttl sid role content t0 t1 t2 t3 m :
  ttl (add_message sid role content t0 t1 t2 t3 m) = ttl m.
Proof. reflexivity. Qed.

(** A message that was added is the last one of the history read back,
    as long as the read asks for at least one message and comes within the
    idle window after the write. *)
Theorem added_message_is_read_back sid role content t0 t1 t2 t3 m n now :
  n <> O ->
  now - t3 <= ttl m ->
  last (get_history sid n now (add_message sid role content t0 t1 t2 t3 m)).1 =
    Some (mkMessage role content t2).
Proof.
  intros Hn Hnow. unfold get_history.
  rewrite clean_expired_lookup, add_message_lookup, add_message_ttl.
  unfold expired. cbn [last_accessed].
  destruct (Z.ltb_spec (ttl m) (now - t3)) as [Hlt|_]; [lia|].
  cbn [fst history]. now apply last_n_last.
Qed.

Lemma added_message_is_read_back_witness :
  last (get_history "s1" 10 3600000000
          (add_message "s1" "assistant" "hello" 0 0 0 0 (new 60))).1 =
    Some (mkMessage "assistant" "hello" 0).
Proof.
  apply (added_message_is_read_back "s1" "assistant" "hello" 0 0 0 0 (new 60) 10
           3600000000); [discriminate|vm_compute; discriminate].
Defined.

(** A read returns at most [max_messages] messages when that number is
    positive, and what it returns is the end of the stored history. *)
Theorem history_window sid n now m :
  n <> O ->
  (List.length (get_history sid n now m).1 <= n)%nat /\
  forall data, sessions m !! sid = Some data ->
               (get_history sid n now m).1 `suffix_of` history data.
Proof.
  intros Hn. unfold get_history. rewrite clean_expired_lookup.
  destruct (sessions m !! sid) as [d|]; cbn [fst].
  - destruct (expired now (ttl m) d); cbn [fst].
    + split; [cbn; lia|]. intros data [= <-]. apply suffix_nil.
    + split; [now apply last_n_length|]. intros data [= <-]. apply last_n_suffix.
  - split; [cbn; lia|]. discriminate.
Qed.

Lemma history_window_witness :
  (List.length (get_history "s1" 1 5
     (add_message "s1" "system" "b" 2 2 2 2
        (add_message "s1" "assistant" "a" 1 1 1 1 (new 60)))).1 <= 1)%nat.
Proof.
  apply (history_window "s1" 1 5). discriminate.
Defined.

(** With [max_messages = 0] the slice [history[-0:]] is the whole history:
    the read of a live session returns every stored message. *)
Theorem history_window_zero sid now m data :
  sessions m !! sid = Some data ->
  now - last_accessed data <= ttl m ->
  (get_history sid 0 now m).1 = history data.
Proof.
  intros Hm Hnow. unfold get_history. rewrite clean_expired_lookup, Hm.
  unfold expired. destruct (Z.ltb_spec (ttl m) (now - last_accessed data)); [lia|].
  reflexivity.
Qed.

Lemma history_window_zero_witness :
  (get_history "s1" 0 5
     (add_message "s1" "system" "b" 2 2 2 2
        (add_message "s1" "assistant" "a" 1 1 1 1 (new 60)))).1 =
  [mkMessage "assistant" "a" 1; mkMessage "system" "b" 2].
Proof.
  apply (history_window_zero "s1" 5
           (add_message "s1" "system" "b" 2 2 2 2
              (add_message "s1" "assistant" "a" 1 1 1 1 (new 60)))
           {| history := [mkMessage "assistant" "a" 1; mkMessage "system" "b" 2];
              created := 1; last_accessed := 2 |});
    vm_compute; [reflexivity|discriminate].
Defined.

(** Reading does not refresh a session: a read within the idle window
    leaves the session as it was, stamp included, so that a later read made
    more than the window after the last write finds nothing, however recent
    the first read. *)
Theorem read_does_not_refresh sid n1 now1 n2 now2 m data :
  sessions m !! sid = Some data ->
  now1 - last_accessed data <= ttl m ->
  ttl m < now2 - last_accessed data ->
  sessions (get_history sid n1 now1 m).2 !! sid = Some data /\
  (get_history sid n2 now2 (get_history sid n1 now1 m).2).1 = [].
Proof.
  intros Hm H1 H2.
  assert (Hkept : sessions (get_history sid n1 now1 m).2 !! sid = Some data).
  { unfold get_history. destruct (sessions (_clean_expired now1 m) !! sid); cbn [snd];
      rewrite clean_expired_lookup, Hm; unfold expired;
      now destruct (Z.ltb_spec (ttl m) (now1 - last_accessed data)); [lia|]. }
  split; [exact Hkept|].
  assert (Httl : ttl (get_history sid n1 now1 m).2 = ttl m).
  { unfold get_history. now destruct (sessions (_clean_expired now1 m) !! sid). }
  unfold get_history at 1. rewrite clean_expired_lookup, Hkept, Httl.
  unfold expired. now destruct (Z.ltb_spec (ttl m) (now2 - last_accessed data)); [|lia].
Qed.

Lemma read_does_not_refresh_witness :
  (get_history "s1" 10 3600000001
     (get_history "s1" 10 3600000000
        (add_message "s1" "assistant" "hello" 0 0 0 0 (new 60))).2).1 = [].
Proof.
  assert (H1 : sessions (add_message "s1" "assistant" "hello" 0 0 0 0 (new 60)) !! "s1" =
               Some {| history := [mkMessage "assistant" "hello" 0];
                       created := 0; last_accessed := 0 |})
    by (vm_compute; reflexivity).
  refine (proj2 (read_does_not_refresh "s1" 10 3600000000 10 3600000001 _ _ H1 _ _));
    vm_compute; [discriminate|reflexivity].
Defined.

(** Adding a message to one session leaves every other session that has
    not expired at the sweep exactly as it was. *)
Theorem add_message_keeps_other_sessions sid other role content t0 t1 t2 t3 m data :
  other <> sid ->
  sessions m !! other = Some data ->
  t0 - last_accessed data <= ttl m ->
  sessions (add_message sid role content t0 t1 t2 t3 m) !! other = Some data.
Proof.
  intros Hne Hm Ht0. unfold add_message. cbn [sessions].
  rewrite lookup_insert_ne by congruence.
  rewrite clean_expired_lookup, Hm. unfold expired.
  now destruct (Z.ltb_spec (ttl m) (t0 - last_accessed data)); [lia|].
Qed.

Lemma add_message_keeps_other_sessions_witness :
  sessions (add_message "s2" "assistant" "b" 5 5 5 5
              (add_message "s1" "assistant" "a" 1 1 1 1 (new 60))) !! "s1" =
    Some {| history := [mkMessage "assistant" "a" 1]; created := 1; last_accessed := 1 |}.
Proof.
  apply add_message_keeps_other_sessions;
    [discriminate|vm_compute; reflexivity|vm_compute; discriminate].
Defined.

(** A message added to a session that has expired starts the session
    anew: the old history is gone and the session is created again. *)
Theorem add_message_restarts_expired_session sid role content t0 t1 t2 t3 m data :
  sessions m !! sid = Some data ->
  ttl m < t0 - last_accessed data ->
  sessions (add_message sid role content t0 t1 t2 t3 m) !! sid =
    Some {| history := [mkMessage role content t2]; created := t1; last_accessed := t3 |}.
Proof.
  intros Hm Ht0. rewrite add_message_lookup, clean_expired_lookup, Hm.
  unfold expired. now destruct (Z.ltb_spec (ttl m) (t0 - last_accessed data)); [|lia].
Qed.

Lemma add_message_restarts_expired_session_witness :
  sessions (add_message "s1" "assistant" "b" 3600000002 3600000003 3600000004 3600000005
              (add_message "s1" "assistant" "a" 1 1 1 1 (new 60))) !! "s1" =
    Some {| history := [mkMessage "assistant" "b" 3600000004];
            created := 3600000003; last_accessed := 3600000005 |}.
Proof.
  assert (H1 : sessions (add_message "s1" "assistant" "a" 1 1 1 1 (new 60)) !! "s1" =
               Some {| history := [mkMessage "assistant" "a" 1];
                       created := 1; last_accessed := 1 |})
    by (vm_compute; reflexivity).
  refine (add_message_restarts_expired_session "s1" "assistant" "b" _ _ _ _ _ _ H1 _).
  vm_compute. reflexivity.
Defined.

End MemoryMore.

(** ** The records [execute_query] builds *)

Module DatabaseMore.
Import DatabaseManager VehicleChatbot EnrichmentFacts.

Lemma assoc_app {A} c (l1 l2 : list (string * A)) :
  assoc c (l1 ++ l2) = match assoc c l1 with Some v => Some v | None => assoc c l2 end.
Proof.
  induction l1 as [|[k v] l1 IH]; cbn; [reflexivity|].
  now destruct (String.eqb c k).
Qed.

Lemma dict_set_fresh {A} k (v : A) d :
  ~ In k (map fst d) -> dict_set k v d = (d ++ [(k, v)])%list.
Proof.
  induction d as [|[k' v'] d IH]; cbn; [reflexivity|]. intros Hk.
  destruct (String.eqb_spec k k') as [->|_]; [exfalso; auto|].
  rewrite IH; [reflexivity|]. intros H. apply Hk. now right.
Qed.

Lemma row_dict_short columns values acc :
  (List.length values < List.length columns)%nat -> row_dict columns values acc = None.
Proof.
  revert values acc. induction columns as [|c columns IH]; intros [|v values] acc; cbn;
    try lia; [reflexivity|]. intros H. apply IH. lia.
Qed.

Lemma row_dict_some columns values acc :
  (List.length columns <= List.length values)%nat ->
  exists r, row_dict columns values acc = Some r.
Proof.
  revert values acc. induction columns as [|c columns IH]; intros [|v values] acc; cbn;
    try lia; eauto. intros H. apply IH. lia.
Qed.

(** the record binds each name to the value of its last column, after
    what the accumulator held *)
Lemma row_dict_assoc columns values acc r c :
  row_dict columns values acc = Some r ->
  assoc c r =
    match assoc c (reverse (zip columns (convert <$> values))) with
    | Some v => Some v
    | None => assoc c acc
    end.
Proof.
  revert values acc. induction columns as [|k columns IH]; intros [|v values] acc;
    cbn [row_dict]; try discriminate.
  - now intros [= <-].
  - now intros [= <-].
  - intros H. rewrite (IH _ _ H).
    change (zip (k :: columns) (convert <$> v :: values))
      with ((k, convert v) :: zip columns (convert <$> values)).
    rewrite reverse_cons, assoc_app. cbn [assoc].
    destruct (assoc c (reverse (zip columns (convert <$> values)))); [reflexivity|].
    rewrite assoc_dict_set. now destruct (String.eqb c k).
Qed.

Lemma row_dict_keys_unique columns values acc r :
  keys_unique acc -> row_dict columns values acc = Some r -> keys_unique r.
Proof.
  revert values acc. induction columns as [|k columns IH]; intros [|v values] acc Hacc; cbn;
    try discriminate.
  - now intros [= <-].
  - now intros [= <-].
  - apply IH. now apply keys_unique_dict_set.
Qed.

Lemma row_dict_distinct columns values acc :
  NoDup (map fst acc ++ columns) ->
  (List.length columns <= List.length values)%nat ->
  row_dict columns values acc = Some (acc ++ zip columns (convert <$> values))%list.
Proof.
  revert values acc. induction columns as [|k columns IH]; intros [|v values] acc Hnd Hlen;
    cbn in *; try lia.
  - now rewrite app_nil_r.
  - now rewrite app_nil_r.
  - assert (Hk : ~ In k (map fst acc)).
    { apply NoDup_app in Hnd as (_ & Hdis & _). intros Hin.
      apply (Hdis k); [now apply list_elem_of_In|]. constructor. }
    rewrite dict_set_fresh by exact Hk.
    rewrite IH; [|rewrite map_app; cbn; now rewrite <- app_assoc|lia].
    now rewrite <- app_assoc.
Qed.

Lemma fetch_rows_distinct columns rows :
  NoDup columns ->
  Forall (fun values => (List.length columns <= List.length values)%nat) rows ->
  fetch_rows columns rows =
    Some (map (fun values => zip columns (convert <$> values)) rows).
Proof.
  intros Hnd. induction 1 as [|values rows Hv Hrows IH]; cbn; [reflexivity|].
  rewrite (row_dict_distinct columns values []) by (cbn; auto). now rewrite IH.
Qed.

(** When the column names are distinct and every row has a value for
    every column, [execute_query] returns one record per row, in order, and
    the record pairs each column with the value of the row, dates as their
    ISO text. *)
Theorem records_pair_columns_with_values columns rows :
  columns <> [] ->
  NoDup columns ->
  Forall (fun values => (List.length columns <= List.length values)%nat) rows ->
  execute_query (ResultSet columns rows) =
    Ok (Some (map (fun values => zip columns (convert <$> values)) rows)).
Proof.
  intros Hne Hnd Hrows. destruct columns as [|c columns]; [contradiction|].
  cbn [execute_query]. now rewrite fetch_rows_distinct.
Qed.

Lemma records_pair_columns_with_values_witness :
  execute_query
    (ResultSet ["vin"; "inspection_date"]
               [[DText "1FTFW4L80SFB31494"; DDate "2024-05-01"]; [DNull; DText "n/a"]]) =
    Ok (Some [[("vin", SStr "1FTFW4L80SFB31494"); ("inspection_date", SStr "2024-05-01")];
              [("vin", SNull); ("inspection_date", SStr "n/a")]]).
Proof.
  apply (records_pair_columns_with_values ["vin"; "inspection_date"]).
  - discriminate.
  - apply NoDup_cons_2; [|apply NoDup_singleton].
    intros H. apply list_elem_of_In in H. cbn in H. intuition discriminate.
  - repeat constructor.
Defined.

(** One row with fewer values than there are columns makes the whole call
    answer [None], the answer of a failed statement, whatever the other
    rows hold. *)
Theorem short_row_fails_the_call columns rows :
  columns <> [] ->
  Exists (fun values => (List.length values < List.length columns)%nat) rows ->
  execute_query (ResultSet columns rows) = Ok None.
Proof.
  intros Hne Hex. destruct columns as [|c columns]; [contradiction|].
  cbn [execute_query]. f_equal.
  induction Hex as [values rows Hv|values rows Hex IH]; cbn [fetch_rows].
  - now rewrite row_dict_short.
  - rewrite IH. now destruct (row_dict _ _ _).
Qed.

Lemma short_row_fails_the_call_witness :
  execute_query (ResultSet ["vin"; "ramp"] [[DText "a"; DText "b"]; [DText "c"]]) = Ok None.
Proof.
  apply short_row_fails_the_call; [discriminate|].
  right. left. cbn. lia.
Defined.

(** Whatever the column names, a record holds each name once, and the
    value it binds to a name is the one of the last column of that name. *)
Theorem record_keeps_last_of_repeated_columns columns rows records rec :
  execute_query (ResultSet columns rows) = Ok (Some records) ->
  In rec records ->
  keys_unique rec /\
  exists values,
    In values rows /\
    forall c, assoc c rec = assoc c (reverse (zip columns (convert <$> values))).
Proof.
  destruct columns as [|c0 columns]; [intros [= <-] []|].
  cbn [execute_query]. intros [= H]. revert records H.
  induction rows as [|values rows IH]; intros records; cbn [fetch_rows].
  - intros [= <-] [].
  - destruct (row_dict (c0 :: columns) values []) as [r|] eqn:Hr; [|discriminate].
    destruct (fetch_rows (c0 :: columns) rows) as [rs|]; [|discriminate].
    intros [= <-] [<-|Hin].
    + split; [apply (row_dict_keys_unique _ _ [] _ (@NoDup_nil_2 string) Hr)|].
      exists values. split; [now left|]. intros c.
      rewrite (row_dict_assoc _ _ _ _ c Hr).
      now destruct (assoc c (reverse _)).
    + destruct (IH rs eq_refl Hin) as (Hu & vs & Hvs & Hc).
      split; [exact Hu|]. exists vs. split; [now right|exact Hc].
Qed.

Lemma record_keeps_last_of_repeated_columns_witness :
  keys_unique [("n", SStr "2")] /\
  exists values,
    In values [[DText "1"; DText "2"]] /\
    forall c, assoc c [("n", SStr "2")] =
              assoc c (reverse (zip ["n"; "n"] (convert <$> values))).
Proof.
  apply (record_keeps_last_of_repeated_columns ["n"; "n"] [[DText "1"; DText "2"]]
           [[("n", SStr "2")]]); [reflexivity|now left].
Defined.

End DatabaseMore.

(** ** The texts the language-model interface builds *)

Module LLMMore.
Import PyStr PyStrFacts LLMInterface CleanSqlFacts.

(** *** [generate_sql] *)

(** Whatever the oracle answers, the statement [generate_sql] hands to the
    database is one statement: a text without [;], closed by one [;]. *)
Theorem generated_sql_is_one_statement raw sql :
  generate_sql raw = Some sql ->
  exists body, sql = body ++ ";" /\ contains ";" body = false.
Proof.
  unfold generate_sql. destruct raw as [s|]; [|discriminate].
  destruct (truthy s); [|discriminate]. intros [= <-].
  rewrite clean_sql_stages. eexists. split; [reflexivity|]. apply before_char_free.
Qed.

Lemma generated_sql_is_one_statement_witness :
  exists body,
    "SELECT vin FROM inspections;" = body ++ ";" /\ contains ";" body = false.
Proof.
  apply (generated_sql_is_one_statement
           (Some "SELECT vin FROM inspections; DROP TABLE inspections")).
  reflexivity.
Defined.

Lemma limit_appended_without_terminator_witness :
  _clean_sql "SELECT vin FROM inspections" = "SELECT vin FROM inspections LIMIT 1000;".
Proof.
  apply (limit_appended_without_terminator "SELECT vin FROM inspections"); reflexivity.
Defined.

(** *** The rewriting of exact matches *)

Lemma length_append a b :
  String.length (a ++ b) = (String.length a + String.length b)%nat.
Proof. induction a as [|x a IH]; [reflexivity|]. rewrite append_cons. cbn. now rewrite IH. Qed.

Lemma lower_same_length a b : lower a = lower b -> String.length a = String.length b.
Proof.
  revert b. induction a as [|x a IH]; intros [|y b]; cbn; try discriminate; [reflexivity|].
  intros [= _ H]. f_equal. now apply IH.
Qed.

Lemma startswith_ci_written col written rest :
  lower written = lower col -> startswith_ci col (written ++ rest) = true.
Proof.
  revert written. induction col as [|x col IH]; intros [|y written]; cbn;
    try discriminate; [reflexivity|].
  intros [= Hxy H]. rewrite append_cons. cbn [startswith_ci].
  rewrite Hxy, Ascii.eqb_refl. now apply IH.
Qed.

Lemma drop_append a b : drop (String.length a) (a ++ b) = b.
Proof. induction a as [|x a IH]; [reflexivity|]. rewrite append_cons. exact IH. Qed.

Lemma lstrip_blank ws c rest :
  blank ws = true -> is_space c = false ->
  lstrip (ws ++ String c rest) = String c rest.
Proof.
  intros Hws Hc. induction ws as [|x ws IH].
  - change ("" ++ String c rest) with (String c rest). cbn [lstrip]. now rewrite Hc.
  - cbn in Hws. apply andb_true_iff in Hws as [Hx Hws].
    rewrite append_cons. cbn [lstrip]. rewrite Hx. now apply IH.
Qed.

Lemma append_nil_r a : a ++ "" = a.
Proof. induction a as [|x a IH]; [reflexivity|]. rewrite append_cons. now rewrite IH. Qed.

Lemma skip_matched col x rest :
  force_ilike_from col (String.length x) (x ++ rest) = force_ilike_from col O rest.
Proof.
  induction x as [|c x IH]; [reflexivity|].
  rewrite append_cons. cbn [String.length force_ilike_from]. exact IH.
Qed.

Lemma match_exact_match col written ws1 ws2 v rest :
  lower written = lower col ->
  blank ws1 = true -> blank ws2 = true ->
  v <> "" -> contains "'" v = false ->
  match_eq_literal col (exact_match written ws1 ws2 v ++ rest) =
    Some (v, String.length (exact_match written ws1 ws2 v)).
Proof.
  intros Hw H1 H2 Hv Hq. unfold match_eq_literal, exact_match.
  rewrite <- !append_assoc.
  rewrite (startswith_ci_written col written _ Hw).
  rewrite <- (lower_same_length _ _ Hw), drop_append.
  change ("=" ++ ws2 ++ "'" ++ v ++ "'" ++ rest)
    with (String "="%char (ws2 ++ "'" ++ v ++ "'" ++ rest)).
  rewrite (lstrip_blank ws1 _ _ H1) by reflexivity.
  change ("'" ++ v ++ "'" ++ rest) with (String "'"%char (v ++ "'" ++ rest)).
  rewrite (lstrip_blank ws2 _ _ H2) by reflexivity.
  rewrite (before_char_absent _ v _ Hq).
  change (before_char "'"%char ("'" ++ rest)) with "".
  rewrite append_nil_r.
  apply truthy_true in Hv. rewrite Hv. cbn [andb].
  assert (Hlt : (String.length v <? String.length (v ++ "'" ++ rest))%nat = true).
  { apply Nat.ltb_lt. rewrite !length_append. cbn [String.length]. lia. }
  rewrite Hlt. f_equal. f_equal.
  repeat first [rewrite length_append | progress cbn [String.length]]. lia.
Qed.

Lemma force_ilike_matched col c x rest v :
  match_eq_literal col (String c (x ++ rest)) = Some (v, S (String.length x)) ->
  force_ilike_from col O (String c (x ++ rest)) =
    (col ++ " ILIKE '%" ++ v ++ "%'") ++ force_ilike_from col O rest.
Proof.
  intros H. cbn [force_ilike_from]. rewrite H.
  replace (S (String.length x) - 1)%nat with (String.length x) by lia.
  now rewrite skip_matched.
Qed.

(** An exact match on a column, written in any letter case and with any
    white space around [=], on a non-empty value without quote, is replaced
    by the pattern match on the column; the text behind it is rewritten on
    its own. *)
Theorem exact_match_becomes_pattern_match col written ws1 ws2 v rest :
  col <> "" ->
  lower written = lower col ->
  blank ws1 = true -> blank ws2 = true ->
  v <> "" -> contains "'" v = false ->
  force_ilike (written ++ ws1 ++ "=" ++ ws2 ++ "'" ++ v ++ "'" ++ rest) col =
    col ++ " ILIKE '%" ++ v ++ "%'" ++ force_ilike rest col.
Proof.
  intros Hcol Hw H1 H2 Hv Hq. unfold force_ilike.
  pose proof (match_exact_match col written ws1 ws2 v rest Hw H1 H2 Hv Hq) as Hm.
  unfold exact_match in Hm. rewrite <- !append_assoc in Hm.
  assert (Hlen : String.length written <> O).
  { rewrite (lower_same_length _ _ Hw). now destruct col. }
  destruct written as [|c w']; [contradiction|].
  set (x := w' ++ ws1 ++ "=" ++ ws2 ++ "'" ++ v ++ "'").
  assert (E : String c w' ++ ws1 ++ "=" ++ ws2 ++ "'" ++ v ++ "'" ++ rest =
              String c (x ++ rest)).
  { unfold x. rewrite <- !append_assoc. reflexivity. }
  rewrite E in Hm |- *.
  rewrite (force_ilike_matched col c x rest v Hm).
  now rewrite <- !append_assoc.
Qed.

Lemma exact_match_becomes_pattern_match_witness :
  force_ilike ("Inspector_Name" ++ " " ++ "=" ++ "" ++ "'" ++ "bob" ++ "'" ++ " AND x = 1")
              "inspector_name" =
    "inspector_name" ++ " ILIKE '%" ++ "bob" ++ "%'"
      ++ force_ilike " AND x = 1" "inspector_name".
Proof.
  apply exact_match_becomes_pattern_match; try reflexivity; discriminate.
Defined.

Lemma take_length n s : (String.length (take n s) <= n)%nat.
Proof.
  revert s. induction n as [|n IH]; intros [|c s]; cbn; try lia.
  specialize (IH s). lia.
Qed.

(** *** [_polish_response] *)

Lemma upper_char_not_lower c : is_lower (upper_char c) = false.
Proof.
  destruct c as [[] [] [] [] [] [] [] []]; reflexivity.
Qed.

(** A polished response is never empty and never starts with a small
    letter. *)
Theorem polished_response_is_capitalised response :
  exists c rest,
    _polish_response response = String c rest /\ is_lower c = false.
Proof.
  unfold _polish_response.
  destruct (replace _ _ _) as [|c rest].
  - eexists _, _. split; reflexivity.
  - eexists _, _. split; [reflexivity|]. apply upper_char_not_lower.
Qed.

(** *** [_preprocess_query] *)

Lemma keep_chars_all p s : all_chars p (keep_chars p s) = true.
Proof.
  induction s as [|c s IH]; [reflexivity|]. cbn [keep_chars].
  destruct (p c) eqn:Hc; [|exact IH]. cbn [all_chars]. now rewrite Hc.
Qed.

Lemma all_chars_contains p c s :
  all_chars p s = true -> p c = false -> contains (String c "") s = false.
Proof.
  intros Hs Hc. induction s as [|x s IH]; [reflexivity|].
  cbn in Hs. apply andb_true_iff in Hs as [Hx Hs].
  cbn [contains startswith]. rewrite (IH Hs).
  destruct (Ascii.eqb_spec c x) as [->|_]; [congruence|reflexivity].
Qed.

(** The query that goes into a prompt holds small letters, digits, white
    space, [-], [_] and ['] only; in particular it holds no double quote, so
    that it cannot close the quotes the prompt puts around it. *)
Theorem preprocessed_query_alphabet query :
  all_chars kept_char (_preprocess_query query) = true /\
  contains Samples.dq (_preprocess_query query) = false.
Proof.
  split; [apply keep_chars_all|].
  apply (all_chars_contains kept_char); [apply keep_chars_all|reflexivity].
Qed.

(** *** The code fences *)

Lemma unfenced_head s c t :
  s = String c t -> Ascii.eqb "`" c = false ->
  strip_fences_from O s = String c (strip_fences_from O t).
Proof.
  intros -> Hc. cbn [strip_fences_from startswith]. now rewrite Hc.
Qed.

Lemma head_not_tick t :
  startswith "`" t = false -> startswith "`" (strip_fences_from O t) = false.
Proof.
  destruct t as [|z t3]; [reflexivity|]. cbn [startswith].
  destruct (Ascii.eqb "`" z) eqn:Hz; [discriminate|]. intros _.
  rewrite (unfenced_head _ z t3 eq_refl Hz). cbn [startswith]. now rewrite Hz.
Qed.

Lemma head_not_two_ticks t :
  startswith "``" t = false -> startswith "``" (strip_fences_from O t) = false.
Proof.
  destruct t as [|y t2]; [reflexivity|]. cbn [startswith].
  destruct (Ascii.eqb "`" y) eqn:Hy.
  - intros Ht2. apply Ascii.eqb_eq in Hy as <-.
    assert (H1 : startswith "`" t2 = false).
    { destruct t2 as [|z t3]; [reflexivity|]. cbn [startswith] in *.
      now destruct (Ascii.eqb "`" z). }
    assert (E : strip_fences_from O (String "`" t2) = String "`" (strip_fences_from O t2)).
    { cbn [strip_fences_from startswith]. rewrite Ascii.eqb_refl.
      destruct t2 as [|z t3]; [reflexivity|]. cbn [startswith] in *.
      destruct (Ascii.eqb "`" z); [discriminate|reflexivity]. }
    rewrite E. cbn [startswith]. rewrite Ascii.eqb_refl.
    pose proof (head_not_tick t2 H1) as H.
    destruct (strip_fences_from O t2) as [|a o]; [reflexivity|].
    cbn [startswith] in *. now destruct (Ascii.eqb "`" a).
  - intros _. rewrite (unfenced_head _ y t2 eq_refl Hy). cbn [startswith]. now rewrite Hy.
Qed.

(** The text left by the removal of the code fences holds no fence. *)
Theorem strip_fences_leaves_no_fence s : contains "```" (strip_fences s) = false.
Proof.
  unfold strip_fences. generalize O as k.
  induction s as [|c t IH]; intros k; [reflexivity|].
  destruct k as [|k]; [|apply IH].
  cbn [strip_fences_from].
  destruct (startswith "```sql" (String c t)); [apply IH|].
  destruct (startswith "```" (String c t)) eqn:Hf; [apply IH|].
  cbn [contains]. rewrite IH, orb_false_r.
  cbn [startswith] in *.
  destruct (Ascii.eqb "`" c); [|reflexivity].
  now apply head_not_two_ticks.
Qed.

End LLMMore.

(** ** The orchestrator: paths, cache and memory *)

Module ChatbotMore.
Import PyStr PyStrFacts DatabaseManager VehicleChatbot ChatbotFacts MemoryFacts MemoryMore
  DatabaseMore LLMMore.

#[local] Arguments _is_destructive_query : simpl never.
#[local] Arguments normalize : simpl never.
#[local] Arguments error_message : simpl never.
#[local] Arguments _generate_suggestion : simpl never.
#[local] Arguments LLMInterface.format_response : simpl never.
#[local] Arguments LLMInterface.generate_sql : simpl never.
#[local] Arguments LLMInterface.route_query : simpl never.
#[local] Arguments ConversationMemory.get_history : simpl never.
#[local] Arguments ConversationMemory.add_message : simpl never.
#[local] Arguments execute_query : simpl never.
#[local] Arguments json_getitem : simpl never.
#[local] Arguments json_get : simpl never.
#[local] Arguments json_truthy : simpl never.
#[local] Arguments PyStr.lower : simpl never.
#[local] Arguments PyStr.take : simpl never.
#[local] Arguments dict_set : simpl never.

Section More.

Variable json_loads : string -> decoded.

(** *** Sessions *)

Lemma memory_read_none sid env st : session_given sid = None -> memory_read sid env st = memory st.
Proof. unfold memory_read. now intros ->. Qed.

Lemma memory_written_none sid role content env m :
  session_given sid = None -> memory_written sid role content env m = m.
Proof. unfold memory_written. now intros ->. Qed.

Lemma memory_frame_without_session q sid env st log r st' log' :
  session_given sid = None ->
  process_query json_loads q sid env (st, log) = (Ok r, (st', log')) ->
  memory st' = memory st.
Proof.
  intros Hs H.
  apply process_query_outcome in H as [[_ H]|(e & asked & _ & _ & _ & -> & _)].
  - destruct H; cbn; rewrite ?memory_written_none, ?memory_read_none by exact Hs; auto.
    now destruct (2 <? error_count st).
  - cbn. now rewrite memory_written_none.
Qed.

(** A call without a session id (or with the empty one) neither reads nor
    writes the conversation memory, on any path. *)
Theorem no_session_no_memory q sid env st log r st' log' :
  session_given sid = None ->
  process_query json_loads q sid env (st, log) = (Ok r, (st', log')) ->
  memory st' = memory st.
Proof.
  intros Hs H.
  apply process_query_outcome in H as [[_ H]|(e & asked & _ & _ & _ & -> & _)].
  - destruct H as [c _| | | |]; cbn [memory after_empty after_answer set_error_count];
      try reflexivity.
    + destruct (2 <? error_count st); [reflexivity|now apply memory_read_none].
    + now rewrite memory_written_none, memory_read_none.
  - cbn [memory after_error]. now apply memory_written_none.
Qed.

Lemma read_keeps_or_drops sid n now m other data :
  ConversationMemory.sessions (ConversationMemory.get_history sid n now m).2 !! other
    = Some data ->
  ConversationMemory.sessions m !! other = Some data.
Proof.
  unfold ConversationMemory.get_history.
  destruct (ConversationMemory.sessions (ConversationMemory._clean_expired now m) !! sid);
    cbn [snd]; rewrite clean_expired_lookup;
    destruct (ConversationMemory.sessions m !! other) as [d|]; try discriminate;
    now destruct (ConversationMemory.expired now (ConversationMemory.ttl m) d).
Qed.

Lemma memory_read_keeps_or_drops sid env st other data :
  ConversationMemory.sessions (memory_read sid env st) !! other = Some data ->
  ConversationMemory.sessions (memory st) !! other = Some data.
Proof.
  unfold memory_read. destruct (session_given sid); [apply read_keeps_or_drops|auto].
Qed.

Lemma memory_written_keeps_or_drops sid role content env m other data :
  session_given sid <> Some other ->
  ConversationMemory.sessions (memory_written sid role content env m) !! other = Some data ->
  ConversationMemory.sessions m !! other = Some data.
Proof.
  unfold memory_written. intros Hne. destruct (session_given sid) as [s|]; [|auto].
  unfold ConversationMemory.add_message. cbn [ConversationMemory.sessions].
  rewrite lookup_insert_ne by congruence. rewrite clean_expired_lookup.
  destruct (ConversationMemory.sessions m !! other) as [d|]; [|discriminate].
  now destruct (ConversationMemory.expired _ _ d).
Qed.

(** A call never alters a session other than its own: what the memory
    holds for another session after the call is what it held before (the
    call can only have swept that session away). *)
Theorem other_sessions_not_altered q sid env st log r st' log' other data :
  session_given sid <> Some other ->
  process_query json_loads q sid env (st, log) = (Ok r, (st', log')) ->
  ConversationMemory.sessions (memory st') !! other = Some data ->
  ConversationMemory.sessions (memory st) !! other = Some data.
Proof.
  intros Hne H.
  apply process_query_outcome in H as [[_ H]|(e & asked & _ & _ & _ & -> & _)].
  - destruct H; cbn; auto.
    + destruct (2 <? error_count st); [auto|apply memory_read_keeps_or_drops].
    + intros Hm. apply memory_written_keeps_or_drops in Hm; [|exact Hne].
      now apply memory_read_keeps_or_drops in Hm.
  - cbn. now apply memory_written_keeps_or_drops.
Qed.

(** After a call that formatted an answer for a session, the last message
    of that session is the answer, with the role [assistant], and the
    session was last written at the instant the call read the clock for
    it. *)
Theorem answer_is_recorded q sid s env st r st' log' :
  session_given sid = Some s ->
  process_query json_loads q sid env (st, []) = (Ok r, (st', log')) ->
  In AskFormat log' ->
  exists data,
    ConversationMemory.sessions (memory st') !! s = Some data /\
    last (ConversationMemory.history data) =
      Some (ConversationMemory.mkMessage "assistant" r (now_message env)) /\
    ConversationMemory.last_accessed data = now_accessed env.
Proof.
  intros Hs H Hfmt.
  destruct (asked_format_answered json_loads _ _ _ _ _ _ _ H Hfmt) as (_ & _ & _ & ->).
  cbn [memory after_answer]. unfold memory_written. rewrite Hs.
  rewrite add_message_lookup. eexists. split; [reflexivity|].
  cbn [ConversationMemory.history ConversationMemory.last_accessed].
  split; [apply last_snoc|reflexivity].
Qed.

(** After a call whose body raised, for a session, the last message of
    that session is a [system] message that holds ["Error: "] and the first
    hundred characters of the lower-cased error text. *)
Theorem error_is_recorded q sid s env st r st' log' e w :
  session_given sid = Some s ->
  pipeline json_loads q sid env (st, []) = (Raise e, w) ->
  process_query json_loads q sid env (st, []) = (Ok r, (st', log')) ->
  exists data content,
    ConversationMemory.sessions (memory st') !! s = Some data /\
    last (ConversationMemory.history data) =
      Some (ConversationMemory.mkMessage "system" content (now_message env)) /\
    content = "Error: " ++ take 100 (lower e) /\
    (String.length content <= 107)%nat.
Proof.
  intros Hs Hp H.
  apply process_query_outcome in H as [[Hp' _]|(e' & asked & Hp' & _ & _ & -> & _)];
    [congruence|].
  assert (e' = e) as -> by congruence.
  cbn [memory after_error]. unfold memory_written. rewrite Hs.
  rewrite add_message_lookup. eexists _, _. split; [reflexivity|].
  cbn [ConversationMemory.history]. split; [apply last_snoc|]. split; [reflexivity|].
  change ("Error: " ++ take 100 (lower e))
    with (String "E" (String "r" (String "r" (String "o" (String "r" (String ":"
           (String " " (take 100 (lower e)))))))))%char.
  cbn [String.length]. pose proof (take_length 100 (lower e)). lia.
Qed.

(** *** What the memory stores *)

Lemma replies_only_read sid env st :
  replies_only (memory st) -> replies_only (memory_read sid env st).
Proof.
  intros Hm k data msg Hk. apply memory_read_keeps_or_drops in Hk. eauto.
Qed.

Lemma replies_only_written sid role content env m :
  role = "assistant" \/ role = "system" ->
  replies_only m -> replies_only (memory_written sid role content env m).
Proof.
  intros Hrole Hm. unfold memory_written. destruct (session_given sid) as [s|]; [|exact Hm].
  intros k data msg Hk Hin. destruct (decide (k = s)) as [->|Hne].
  - rewrite add_message_lookup in Hk.
    pose proof (clean_expired_lookup (now_sweep env) m s) as Hc.
    destruct (ConversationMemory.sessions
                (ConversationMemory._clean_expired (now_sweep env) m) !! s) as [d|];
      injection Hk as <-; cbn [ConversationMemory.history] in Hin.
    + apply in_app_iff in Hin as [Hin|[<-|[]]]; [|exact Hrole].
      destruct (ConversationMemory.sessions m !! s) as [d'|] eqn:Hd'; [|discriminate].
      destruct (ConversationMemory.expired _ _ d'); [discriminate|].
      injection Hc as <-. eauto.
    + destruct Hin as [<-|[]]. exact Hrole.
  - unfold ConversationMemory.add_message in Hk. cbn [ConversationMemory.sessions] in Hk.
    rewrite lookup_insert_ne in Hk by congruence. rewrite clean_expired_lookup in Hk.
    destruct (ConversationMemory.sessions m !! k) as [d'|] eqn:Hd'; [|discriminate].
    destruct (ConversationMemory.expired _ _ d'); [discriminate|].
    injection Hk as <-. eauto.
Qed.

Lemma replies_only_step q sid env st log r st' log' :
  replies_only (memory st) ->
  process_query json_loads q sid env (st, log) = (Ok r, (st', log')) ->
  replies_only (memory st').
Proof.
  intros Hm H.
  apply process_query_outcome in H as [[_ H]|(e & asked & _ & _ & _ & -> & _)].
  - destruct H; cbn; auto.
    + destruct (2 <? error_count st); [auto|now apply replies_only_read].
    + apply replies_only_written; [now left|now apply replies_only_read].
  - cbn. apply replies_only_written; [now right|exact Hm].
Qed.

(** Whatever calls the chatbot has served, every message its memory holds
    has the role [assistant] or [system]: the queries of the user are never
    stored. *)
Theorem memory_holds_replies_only calls sid data msg :
  ConversationMemory.sessions (memory (run_all json_loads init calls)) !! sid = Some data ->
  In msg (ConversationMemory.history data) ->
  ConversationMemory.role msg = "assistant" \/ ConversationMemory.role msg = "system".
Proof.
  assert (Hinv : forall st, replies_only (memory st) ->
                            replies_only (memory (run_all json_loads st calls))).
  { induction calls as [|c calls IH]; intros st Hst; [exact Hst|].
    cbn. apply IH. destruct (state_after_run json_loads st c) as (r & log' & H).
    eapply replies_only_step; eauto. }
  apply Hinv. intros k d m Hk. cbn in Hk. now rewrite lookup_empty in Hk.
Qed.

(** *** The cache *)

Lemma lookup_none_keys n cache :
  cache_lookup n cache = None <->
  ~ In n (map (fun kv : string * string => normalize kv.1) cache).
Proof.
  induction cache as [|[k v] cache IH]; cbn; [tauto|].
  destruct (String.eqb_spec (normalize k) n) as [->|Hne].
  - split; [discriminate|]. intros H. exfalso. auto.
  - rewrite IH. split; [intros H [E|E]; [congruence|auto]|tauto].
Qed.

Lemma miss_appends q r cache :
  cache_lookup (normalize q) cache = None ->
  dict_set q r cache = (cache ++ [(q, r)])%list.
Proof.
  intros H. apply dict_set_fresh. apply lookup_none_keys in H.
  intros Hin. apply H. apply in_map_iff in Hin as ([k v] & <- & Hin).
  apply in_map_iff. exists (k, v). auto.
Qed.

(** In a chatbot that has served any calls, a call leaves the cache as it
    was or adds one entry at its end, the query with its response: no
    entry is ever replaced or removed. *)
Theorem cache_only_grows calls q sid env log r st' log' :
  process_query json_loads q sid env (run_all json_loads init calls, log) =
    (Ok r, (st', log')) ->
  query_cache st' = query_cache (run_all json_loads init calls) \/
  query_cache st' = (query_cache (run_all json_loads init calls) ++ [(q, r)])%list.
Proof.
  intros H. pose proof (cache_ok_run_all json_loads calls init cache_ok_init) as Hok.
  apply process_query_outcome in H as [[_ H]|(e & asked & _ & _ & _ & -> & _)];
    [|now left].
  destruct H as [| | | |pre sql rec recs Hmiss]; auto.
  right. cbn. rewrite (lookup_if_true _ _ Hok) in Hmiss. now apply miss_appends.
Qed.

Lemma cache_distinct_step q sid env st log r st' log' :
  cache_ok st -> cache_distinct st ->
  process_query json_loads q sid env (st, log) = (Ok r, (st', log')) ->
  cache_distinct st'.
Proof.
  intros Hok Hd H.
  apply process_query_outcome in H as [[_ H]|(e & asked & _ & _ & _ & -> & _)];
    [|exact Hd].
  destruct H as [| | | |pre sql rec recs Hmiss]; auto.
  unfold cache_distinct. cbn. rewrite (lookup_if_true _ _ Hok) in Hmiss.
  rewrite (miss_appends _ _ _ Hmiss), map_app. cbn.
  apply NoDup_app. repeat split; [exact Hd| |apply NoDup_singleton].
  intros n Hn Hn'. apply list_elem_of_singleton in Hn' as ->.
  apply lookup_none_keys in Hmiss. apply Hmiss. now apply list_elem_of_In.
Qed.

(** Whatever calls the chatbot has served, no two cached queries are equal
    after lower-casing and stripping, every cached response is non-empty
    and no cached query contains a denylisted word. *)
Theorem cache_invariant calls :
  NoDup (map (fun kv : string * string => normalize kv.1)
             (query_cache (run_all json_loads init calls))) /\
  Forall (fun kv : string * string =>
            kv.2 <> "" /\ _is_destructive_query kv.1 = false)
         (query_cache (run_all json_loads init calls)).
Proof.
  split.
  - assert (Hinv : forall st, cache_ok st -> cache_distinct st ->
                              cache_distinct (run_all json_loads st calls)).
    { induction calls as [|c calls IH]; intros st Hok Hd; [exact Hd|].
      cbn. destruct (state_after_run json_loads st c) as (r & log' & H).
      apply IH; [eapply cache_ok_step|eapply cache_distinct_step]; eauto. }
    apply Hinv; [apply cache_ok_init|constructor].
  - pose proof (cache_ok_run_all json_loads calls init cache_ok_init) as Hok.
    unfold cache_ok in Hok. eapply Forall_impl; [exact Hok|].
    intros [k v] [Ht Hd]. split; [|exact Hd]. now apply truthy_true.
Qed.

(** *** Paths *)

(** When the SQL oracle gives no answer, or an empty one, the call
    answers that it needs more details and runs no statement: the flow
    does not call [execute_query].  Beside the routing and SQL oracles
    nothing is asked on the structured route; on the semantic route the
    search has been asked, and has fetched its records from the database,
    before.  The cache and the memory are left alone. *)
Theorem no_sql_no_statement_run q sid env st r st' log' :
  sql_answer env = None \/ sql_answer env = Some "" ->
  process_query json_loads q sid env (st, []) = (Ok r, (st', log')) ->
  In AskSql log' ->
  r = "I need more details to answer that." /\
  (log' = [AskRouting; AskSql] \/
   log' = [AskRouting; AskSemantic; FetchMatches; AskSql]) /\
  (forall sql, ~ In (RunSql sql) log') /\
  query_cache st' = query_cache st /\
  memory st' = memory st.
Proof.
  intros Hsql H Hin.
  assert (Hgen : LLMInterface.generate_sql (sql_answer env) = None).
  { destruct Hsql as [->| ->]; reflexivity. }
  apply process_query_outcome in H as [[_ H]|(e & asked & Hp & Hr & -> & -> & ->)].
  - destruct H as [| |pre ? ? Hpre ?|pre sql ? ? Hpre Hs ?|pre sql ? ? ? ? Hpre Hs ?];
      cbn in Hin; try contradiction; try congruence.
    repeat split; auto.
    + destruct Hpre; subst; cbn; auto.
    + intros sql0 Hrun. cbn in Hrun.
      destruct Hpre; subst; cbn in Hrun; intuition congruence.
  - exfalso. cbn in Hin, Hp. revert Hp.
    destruct Hr as (Hmiss & Hd & _).
    unfold pipeline, _get_cached_response. unfold_monad. cbn. rewrite Hmiss, Hd.
    destruct (run_route json_loads q env st []) as [res Hres]. rewrite Hres.
    destruct res as [routing|e1]; [|intros [= <- <-]; cbn in Hin; intuition congruence].
    destruct (run_semantic q routing env st ([] ++ [AskRouting])%list)
      as (res & asked' & Hs & Hasked). rewrite Hs.
    destruct res as [sem|e2];
      [|intros [= <- <-]; destruct Hasked; subst; cbn in Hin; intuition congruence].
    rewrite run_flow, Hgen. discriminate.
Qed.

Lemma getitem_get j key v d : json_getitem j key = Ok v -> json_get j key d = v.
Proof.
  unfold json_getitem, json_get. destruct j; try discriminate.
  destruct (assoc key members); [now intros [= ->]|discriminate].
Qed.

(** When the routing decision asks for the semantic path and the search
    fails, the whole call fails: the error is translated, counted and
    recorded; no statement is asked of the SQL oracle and none is run.
    The database has been asked by the search itself, for the records
    found, unless the search raised before it got that far. *)
Theorem failed_search_fails_the_call q sid env st log routing u reason e :
  if_true (cache_lookup (normalize q) (query_cache st)) = None ->
  _is_destructive_query q = false ->
  LLMInterface.route_query json_loads (route_answer env) = Ok routing ->
  json_getitem routing "use_semantic" = Ok u ->
  json_truthy u = true ->
  json_getitem routing "reason" = Ok reason ->
  search_failure env e ->
  process_query json_loads q sid env (st, log) =
    (Ok (error_message (lower e)),
     (after_error e sid env st,
      (log ++ match semantic_answer env with
              | Raise _ => [AskRouting; AskSemantic]
              | Ok _ => [AskRouting; AskSemantic; FetchMatches]
              end)%list)).
Proof.
  intros Hmiss Hd Hroute Hu Htrue Hreason Hfail.
  rewrite process_query_of_pipeline.
  assert (Hp : pipeline json_loads q sid env (st, log) =
               (Raise e,
                (st, (log ++ match semantic_answer env with
                             | Raise _ => [AskRouting; AskSemantic]
                             | Ok _ => [AskRouting; AskSemantic; FetchMatches]
                             end)%list))).
  { unfold pipeline, _get_cached_response, _route_query, _get_semantic_matches, search.
    unfold_monad. cbn. rewrite Hmiss, Hd, Hroute, Hu, Hreason.
    rewrite (getitem_get _ _ _ (JBool false) Hu), Htrue. cbn.
    rewrite <- !app_assoc. cbn.
    destruct Hfail as [->|[(run & -> & ->)|(run & -> & -> & ->)]];
      cbn; rewrite <- ?app_assoc; reflexivity. }
  now rewrite Hp.
Qed.

Lemma getitem_error_generic j key e :
  key = "use_semantic" \/ key = "reason" ->
  json_getitem j key = Raise e ->
  error_message (lower e) = "An unexpected error occurred. Please try again.".
Proof.
  unfold json_getitem. intros Hkey.
  destruct j; try (intros [= <-]; reflexivity).
  destruct (assoc key members); [discriminate|].
  intros [= <-]. destruct Hkey as [->| ->]; reflexivity.
Qed.

(** A routing answer that decodes to something else than an object with
    the members [use_semantic] and [reason] makes the call fail with the
    generic message, before any other oracle is asked. *)
Theorem misshapen_routing_fails_the_call q sid env st log routing e :
  if_true (cache_lookup (normalize q) (query_cache st)) = None ->
  _is_destructive_query q = false ->
  LLMInterface.route_query json_loads (route_answer env) = Ok routing ->
  json_getitem routing "use_semantic" = Raise e \/
  ((exists u, json_getitem routing "use_semantic" = Ok u) /\
   json_getitem routing "reason" = Raise e) ->
  process_query json_loads q sid env (st, log) =
    (Ok "An unexpected error occurred. Please try again.",
     (after_error e sid env st, (log ++ [AskRouting])%list)).
Proof.
  intros Hmiss Hd Hroute Hshape.
  rewrite process_query_of_pipeline.
  assert (Hp : pipeline json_loads q sid env (st, log) =
               (Raise e, (st, (log ++ [AskRouting])%list))).
  { unfold pipeline, _get_cached_response, _route_query.
    unfold_monad. cbn. rewrite Hmiss, Hd, Hroute.
    destruct Hshape as [->|[[u ->] ->]]; reflexivity. }
  rewrite Hp.
  assert (Hmsg : error_message (lower e) =
                 "An unexpected error occurred. Please try again.").
  { destruct Hshape as [H|[_ H]].
    - apply (getitem_error_generic routing "use_semantic"); [now left|exact H].
    - apply (getitem_error_generic routing "reason"); [now right|exact H]. }
  now rewrite Hmsg.
Qed.

Lemma append_truthy a b : truthy a = true -> a ++ b <> "".
Proof. destruct a; [discriminate|]. intros _. discriminate. Qed.

(** No call answers with the empty string. *)
Theorem response_never_empty q sid env st log r st' log' :
  process_query json_loads q sid env (st, log) = (Ok r, (st', log')) -> r <> "".
Proof.
  intros H.
  apply process_query_outcome in H as [[_ H]|(e & asked & _ & _ & -> & _)].
  - destruct H as [c Hc| | | |]; try discriminate.
    + unfold if_true in Hc. destruct (cache_lookup _ _) as [c'|]; [|discriminate].
      destruct (truthy c') eqn:Ht; [|discriminate]. injection Hc as <-.
      now apply truthy_true.
    + unfold empty_reply. destruct (2 <? error_count st); [discriminate|].
      now apply append_truthy.
    + apply truthy_true, format_response_truthy.
  - unfold error_message. destruct (contains _ _); [discriminate|].
    destruct (contains_any _ _); discriminate.
Qed.

End More.

(** *** At sample calls *)

Import Samples.

Lemma no_session_no_memory_witness :
  memory (state_after literal_json_loads init anonymous_call) = memory init.
Proof.
  apply (no_session_no_memory literal_json_loads "Show Chicago" None
           (with_db quiet_env one_record) init []
           "Found 2 inspections at chicago."
           (state_after literal_json_loads init anonymous_call)
           [AskRouting; AskSql; RunSql chicago_sql; AskFormat]);
    [reflexivity|vm_compute; reflexivity].
Defined.

Lemma other_sessions_not_altered_witness :
  ConversationMemory.sessions (memory (state_after literal_json_loads init answered_call))
    !! "s1" =
  Some {| ConversationMemory.history :=
            [ConversationMemory.mkMessage "assistant" "Found 2 inspections at chicago." 1003];
          ConversationMemory.created := 1002;
          ConversationMemory.last_accessed := 1004 |}.
Proof.
  apply (other_sessions_not_altered literal_json_loads "show trucks at chicago" (Some "s2")
           quiet_env (state_after literal_json_loads init answered_call) []
           "No matching records found. Try being more specific with your criteria."
           (state_after literal_json_loads
              (state_after literal_json_loads init answered_call)
              (mkCall "show trucks at chicago" (Some "s2") quiet_env))
           [AskRouting; AskSql; RunSql chicago_sql] "s1");
    [discriminate|vm_compute; reflexivity|vm_compute; reflexivity].
Defined.

Lemma answer_is_recorded_witness :
  exists data,
    ConversationMemory.sessions (memory (state_after literal_json_loads init answered_call))
      !! "s1" = Some data /\
    last (ConversationMemory.history data) =
      Some (ConversationMemory.mkMessage "assistant" "Found 2 inspections at chicago." 1003) /\
    ConversationMemory.last_accessed data = 1004.
Proof.
  apply (answer_is_recorded literal_json_loads "Show Chicago" (Some "s1") "s1"
           (with_db quiet_env one_record) init "Found 2 inspections at chicago."
           (state_after literal_json_loads init answered_call)
           [AskRouting; AskSql; RunSql chicago_sql; AskFormat]);
    [reflexivity|vm_compute; reflexivity|cbn; auto].
Defined.

Lemma error_is_recorded_witness :
  exists data content,
    ConversationMemory.sessions
      (memory (state_after literal_json_loads init (mkCall "show trucks" (Some "s1") db_down)))
      !! "s1" = Some data /\
    last (ConversationMemory.history data) =
      Some (ConversationMemory.mkMessage "system" content 1003) /\
    content = "Error: " ++ take 100 (lower "connection already closed") /\
    (String.length content <= 107)%nat.
Proof.
  apply (error_is_recorded literal_json_loads "show trucks" (Some "s1") "s1" db_down init
           "Our systems are temporarily unavailable. Please try again later."
           (state_after literal_json_loads init (mkCall "show trucks" (Some "s1") db_down))
           [AskRouting; AskSql; RunSql chicago_sql]
           "connection already closed"
           (init, [AskRouting; AskSql; RunSql chicago_sql]));
    [reflexivity|vm_compute; reflexivity|vm_compute; reflexivity].
Defined.

Lemma memory_holds_replies_only_witness :
  ConversationMemory.role
    (ConversationMemory.mkMessage "assistant" "Found 2 inspections at chicago." 1003)
    = "assistant" \/
  ConversationMemory.role
    (ConversationMemory.mkMessage "assistant" "Found 2 inspections at chicago." 1003)
    = "system".
Proof.
  apply (memory_holds_replies_only literal_json_loads [answered_call] "s1"
           {| ConversationMemory.history :=
                [ConversationMemory.mkMessage "assistant"
                   "Found 2 inspections at chicago." 1003];
              ConversationMemory.created := 1002;
              ConversationMemory.last_accessed := 1004 |});
    [vm_compute; reflexivity|now left].
Defined.

Lemma cache_only_grows_witness :
  query_cache (state_after literal_json_loads
                 (run_all literal_json_loads init [miss]) answered_call) =
    query_cache (run_all literal_json_loads init [miss]) \/
  query_cache (state_after literal_json_loads
                 (run_all literal_json_loads init [miss]) answered_call) =
    (query_cache (run_all literal_json_loads init [miss])
       ++ [("Show Chicago", "Found 2 inspections at chicago.")])%list.
Proof.
  apply (cache_only_grows literal_json_loads [miss] "Show Chicago" (Some "s1")
           (with_db quiet_env one_record) []
           "Found 2 inspections at chicago."
           (state_after literal_json_loads (run_all literal_json_loads init [miss])
              answered_call)
           [AskRouting; AskSql; RunSql chicago_sql; AskFormat]).
  vm_compute. reflexivity.
Defined.

Lemma no_sql_no_statement_run_witness :
  "I need more details to answer that." = "I need more details to answer that." /\
  ([AskRouting; AskSemantic; FetchMatches; AskSql] = [AskRouting; AskSql] \/
   [AskRouting; AskSemantic; FetchMatches; AskSql] =
     [AskRouting; AskSemantic; FetchMatches; AskSql]) /\
  (forall sql, ~ In (RunSql sql) [AskRouting; AskSemantic; FetchMatches; AskSql]) /\
  query_cache (set_error_count 0 init) = query_cache init /\
  memory (set_error_count 0 init) = memory init.
Proof.
  apply (no_sql_no_statement_run sample_json_loads "dents near the door" None
           (with_search (with_answers quiet_env (Some semantic_text) (Some ""))
              (Ok one_record))
           init
           "I need more details to answer that." (set_error_count 0 init)
           [AskRouting; AskSemantic; FetchMatches; AskSql]);
    [now right|vm_compute; reflexivity|cbn; auto].
Defined.

Lemma failed_search_fails_the_call_witness :
  process_query sample_json_loads "dents near the door" None
    (with_search (with_answers quiet_env (Some semantic_text) None)
       (Ok (ExecuteFails "relation inspections does not exist")))
    (init, []) =
    (Ok "An unexpected error occurred. Please try again.",
     (after_error "object of type 'NoneType' has no len()" None
        (with_search (with_answers quiet_env (Some semantic_text) None)
           (Ok (ExecuteFails "relation inspections does not exist")))
        init,
      [AskRouting; AskSemantic; FetchMatches])).
Proof.
  apply (failed_search_fails_the_call sample_json_loads "dents near the door" None
           (with_search (with_answers quiet_env (Some semantic_text) None)
              (Ok (ExecuteFails "relation inspections does not exist")))
           init []
           (JObj [("use_semantic", JBool true); ("reason", JStr "vague damage")])
           (JBool true) (JStr "vague damage")
           "object of type 'NoneType' has no len()");
    try reflexivity.
  right. right. eexists. repeat split; reflexivity.
Defined.

Lemma misshapen_routing_fails_the_call_witness :
  process_query literal_json_loads "show trucks" None
    (with_answers quiet_env (Some "{}") None) (init, []) =
    (Ok "An unexpected error occurred. Please try again.",
     (after_error "'use_semantic'" None (with_answers quiet_env (Some "{}") None) init,
      [AskRouting])).
Proof.
  apply (misshapen_routing_fails_the_call literal_json_loads "show trucks" None
           (with_answers quiet_env (Some "{}") None) init [] (JObj []) "'use_semantic'");
    try reflexivity.
  now left.
Defined.

Lemma response_never_empty_witness :
  "I can only provide read-only inspection data." <> "".
Proof.
  apply (response_never_empty literal_json_loads "drop it" None quiet_env init []
           "I can only provide read-only inspection data." init []).
  vm_compute. reflexivity.
Defined.

End ChatbotMore.

(** ** [clean_datetime] *)

Module CleanDatetimeMore.
Import DatabaseManager VehicleChatbot.

Lemma pyval_induction (P : pyval -> Prop) :
  P PNone ->
  (forall s, P (PText s)) ->
  (forall n, P (PNumber n)) ->
  (forall iso, P (PDatetime iso)) ->
  (forall items, Forall P items -> P (PList items)) ->
  (forall entries, Forall (fun kv : string * pyval => P kv.2) entries -> P (PDict entries)) ->
  (forall items, P (PTuple items)) ->
  forall obj, P obj.
Proof.
  intros HNone HText HNumber HDate HList HDict HTuple.
  fix IH 1. intros [ |s|n|iso|items|entries|items].
  - exact HNone.
  - apply HText.
  - apply HNumber.
  - apply HDate.
  - apply HList.
    exact ((fix all (l : list pyval) : Forall P l :=
              match l with
              | [] => Forall_nil_2 P
              | x :: l' => Forall_cons_2 P x l' (IH x) (all l')
              end) items).
  - apply HDict.
    exact ((fix all (l : list (string * pyval))
              : Forall (fun kv : string * pyval => P kv.2) l :=
              match l with
              | [] => Forall_nil_2 _
              | kv :: l' => Forall_cons_2 _ kv l' (IH kv.2) (all l')
              end) entries).
  - apply HTuple.
Qed.

(** After [clean_datetime] no date or datetime is left at any depth of
    lists and of dict values (tuples are not entered, by the function as by
    [holds_datetime]), and a second pass changes nothing. *)
Theorem clean_datetime_leaves_no_datetime obj :
  holds_datetime (clean_datetime obj) = false /\
  clean_datetime (clean_datetime obj) = clean_datetime obj.
Proof.
  induction obj as [ |s|n|iso|items IH|entries IH|items] using pyval_induction;
    try (split; reflexivity).
  - cbn [clean_datetime holds_datetime]. split.
    + induction IH as [|x items [Hx _] _ IHitems]; [reflexivity|].
      cbn. now rewrite Hx.
    + f_equal. induction IH as [|x items [_ Hx] _ IHitems]; [reflexivity|].
      cbn. now rewrite Hx, IHitems.
  - cbn [clean_datetime holds_datetime]. split.
    + induction IH as [|[k v] entries [Hv _] _ IHentries]; [reflexivity|].
      cbn in *. now rewrite Hv.
    + f_equal. induction IH as [|[k v] entries [_ Hv] _ IHentries]; [reflexivity|].
      cbn in *. now rewrite Hv, IHentries.
Qed.

(** [clean_datetime] changes a value exactly when a date or datetime
    stands in it, at some depth of lists and of dict values: [None], text,
    numbers and tuples, and the lists and dicts made of these, come back
    equal. *)
Theorem clean_datetime_changes_dates_only obj :
  clean_datetime obj = obj <-> holds_datetime obj = false.
Proof.
  induction obj as [ |s|n|iso|items IH|entries IH|items] using pyval_induction;
    cbn [clean_datetime holds_datetime]; try (split; reflexivity).
  - split; discriminate.
  - split.
    + intros [= H]. induction IH as [|x items Hx _ IHitems]; [reflexivity|].
      cbn in *. injection H as Hx' Hitems.
      rewrite (proj1 Hx Hx'). cbn. auto.
    + intros H. f_equal. induction IH as [|x items Hx _ IHitems]; [reflexivity|].
      cbn in *. apply orb_false_iff in H as [H1 H2].
      rewrite (proj2 Hx H1), IHitems; auto.
  - split.
    + intros [= H]. induction IH as [|[k v] entries Hv _ IHentries]; [reflexivity|].
      cbn in *. injection H as Hv' Hentries.
      rewrite (proj1 Hv Hv'). cbn. auto.
    + intros H. f_equal. induction IH as [|[k v] entries Hv _ IHentries]; [reflexivity|].
      cbn in *. apply orb_false_iff in H as [H1 H2].
      rewrite (proj2 Hv H1), IHentries; auto.
Qed.

End CleanDatetimeMore.

(** ** The endpoints and the command line *)

Module MainMore.
Import PyStr DatabaseManager VehicleChatbot ChatbotFacts Main.

Section Endpoints.

Variable json_loads : string -> decoded.

Lemma chat_endpoint_run request sur app :
  exists r st',
    chat_endpoint json_loads request sur app =
      (Ok {| response := r;
             response_session := session_of request sur;
             timestamp := now_iso sur |},
       {| chatbot := st'; memory := memory app |}).
Proof.
  unfold chat_endpoint.
  destruct (process_query_total json_loads (query request)
              (Some (session_of request sur)) (oracles sur) (chatbot app, []))
    as (r & [st' log'] & H).
  rewrite H. eauto.
Qed.

(** The chat endpoint always answers, never with the status 500 of its
    [except] branch, and under the session id of the request, or under the
    fresh one when the request has none or an empty one; it leaves the
    memory of the module alone. *)
Theorem chat_endpoint_always_answers request sur app :
  exists r app',
    chat_endpoint json_loads request sur app =
      (Ok {| response := r;
             response_session :=
               match session_id request with
               | Some "" | None => uuid4 sur
               | Some s => s
               end;
             timestamp := now_iso sur |},
       app') /\
    memory app' = memory app.
Proof.
  destruct (chat_endpoint_run request sur app) as (r & st' & H).
  exists r, {| chatbot := st'; memory := memory app |}. split; [|reflexivity].
  rewrite H. unfold session_of. now destruct (session_id request) as [[|c s]|].
Qed.

Lemma serve_chatbot app1 app2 req :
  chatbot app1 = chatbot app2 ->
  is_chat req = true ->
  chatbot (serve json_loads app1 req) = chatbot (serve json_loads app2 req).
Proof.
  intros H Hc. destruct req as [request sur|sid]; [|discriminate].
  cbn [serve]. unfold chat_endpoint. rewrite H.
  now destruct (process_query _ _ _ _ _) as [[r|e] w].
Qed.

Lemma serve_memory_empty app req :
  ConversationMemory.sessions (memory app) = ∅ ->
  ConversationMemory.sessions (memory (serve json_loads app req)) = ∅.
Proof.
  intros H. destruct req as [request sur|sid]; cbn [serve].
  - destruct (chat_endpoint_run request sur app) as (r & st' & ->). exact H.
  - cbn. rewrite H. apply delete_empty.
Qed.

(** The endpoint that clears a session works on the memory of the module,
    which no chat ever writes, and not on the memory of the chatbot: after
    any requests the memory of the module is empty, and the chatbot is the
    one the chat requests alone would have left, histories included. *)
Theorem clear_session_never_reaches_the_chatbot requests :
  ConversationMemory.sessions (memory (fold_left (serve json_loads) requests start)) = ∅ /\
  chatbot (fold_left (serve json_loads) requests start) =
    chatbot (fold_left (serve json_loads) (filter (fun r => is_chat r = true) requests) start).
Proof.
  split.
  - assert (Hinv : forall app, ConversationMemory.sessions (memory app) = ∅ ->
      ConversationMemory.sessions (memory (fold_left (serve json_loads) requests app)) = ∅).
    { induction requests as [|req requests IH]; intros app Happ; [exact Happ|].
      cbn. apply IH. now apply serve_memory_empty. }
    apply Hinv. reflexivity.
  - assert (Hinv : forall app1 app2, chatbot app1 = chatbot app2 ->
      chatbot (fold_left (serve json_loads) requests app1) =
      chatbot (fold_left (serve json_loads)
                 (filter (fun r => is_chat r = true) requests) app2)).
    { induction requests as [|req requests IH]; intros app1 app2 Happ; [exact Happ|].
      cbn [fold_left]. rewrite filter_cons.
      destruct (decide (is_chat req = true)) as [Hc|Hc].
      - cbn [fold_left]. apply IH. now apply serve_chatbot.
      - apply IH. destruct req as [request sur|sid]; [cbn in Hc; congruence|].
        exact Happ. }
    now apply Hinv.
Qed.

End Endpoints.

End MainMore.

Module CliMore.
Import PyStr VehicleChatbot ChatbotFacts ChatbotMore Cli.

Section Loop.

Variable json_loads : string -> decoded.

(** The command line passes no session id: whatever is typed, the loop
    leaves the conversation memory as it found it. *)
Theorem command_line_keeps_no_history inputs st printed :
  memory (main_loop json_loads inputs st printed).1 = memory st.
Proof.
  revert st printed. induction inputs as [|[text env|] inputs IH]; intros st printed;
    cbn [main_loop]; try reflexivity.
  destruct (leaves text); [reflexivity|].
  destruct (process_query_total json_loads text None env (st, []))
    as (r & [st' log'] & H).
  rewrite H. cbn [fst]. rewrite IH.
  now apply (memory_frame_without_session json_loads text None env st [] r st' log').
Qed.

(** What is typed behind [exit] or [quit], in any letter case, is not
    processed. *)
Theorem nothing_runs_after_leaving before text env behind st printed :
  leaves text = true ->
  main_loop json_loads (before ++ Line text env :: behind) st printed =
    main_loop json_loads before st printed.
Proof.
  intros Hl. revert st printed.
  induction before as [|[t e|] before IH]; intros st printed; cbn [main_loop app].
  - now rewrite Hl.
  - destruct (leaves t); [reflexivity|].
    destruct (process_query json_loads t None e (st, [])) as [[r|err] w]; [apply IH|reflexivity].
  - reflexivity.
Qed.

End Loop.

Lemma nothing_runs_after_leaving_witness :
  main_loop Samples.literal_json_loads
    [Line "show trucks at chicago" Samples.quiet_env; Line "EXIT" Samples.quiet_env;
     Line "Show Chicago" (Samples.with_db Samples.quiet_env Samples.one_record)]
    init [] =
  main_loop Samples.literal_json_loads
    [Line "show trucks at chicago" Samples.quiet_env] init [].
Proof.
  apply (nothing_runs_after_leaving Samples.literal_json_loads
           [Line "show trucks at chicago" Samples.quiet_env] "EXIT").
  reflexivity.
Defined.

End CliMore.
